(** * The annotation system of your-code-my-code

    A shallow embedding of [annotationSystem.ts] (with the records of
    [dataStructures.ts]) and the properties of its transformation core: the
    range transform, the batch applier, the range merger, the annotation
    synthesizer and [applyChange].

    Conventions of the embedding.
    - A TypeScript [number] holding a line number, a line count or a document
      version is an integer of [Z]; nothing in the core rounds, divides or
      overflows.
    - A TypeScript [string] is a [string]; the comparison [>] on strings is the
      lexicographic order on code units, [String.ltb] with its arguments
      swapped.
    - An array is a [list]; [push] appends at the end.  The annotation objects
      of one array are distinct objects, as [JSON.parse] and the object
      literals of the transform produce them, so that the in-place updates of
      the merger are updates of one list element; [InPlace] has the merger on
      a store of objects, and [inplace_merger_values] relates the two.
    - [new Date().toISOString()] reads the wall clock; the clock is an explicit
      state threaded through the functions that read it. *)

From Stdlib Require Import ZArith List String Ascii Bool Lia.
From Stdlib Require Import Permutation Sorted.
From Stdlib Require OrderedTypeEx.
Import ListNotations.
Open Scope Z_scope.

(** ** dataStructures.ts *)

(** The only value of the field [type]. *)
Inductive AnnotationType : Type := ai_generated.

Record Annotation : Type := mkAnnotation {
  startLine : Z;
  endLine : Z;
  timestamp : string;
  type : AnnotationType
}.

Module ContentChange.
Record t : Type := mk {
  startLine : Z;
  endLine : Z;
  startCharacter : Z;
  endCharacter : Z;
  text : string;
  rangeLength : Z;
  addedLines : Z;
  deletedLines : Z
}.
End ContentChange.
Abbreviation ContentChange := ContentChange.t.

Module Snapshot.
Record t : Type := mk {
  highlightedRanges : list Annotation;
  lastUpdated : string;
  documentVersion : Z
}.
End Snapshot.
Abbreviation Snapshot := Snapshot.t.

Module Commit.
Record t : Type := mk {
  documentVersion : Z;
  isSignificant : bool;
  contentChanges : list ContentChange
}.
End Commit.
Abbreviation Commit := Commit.t.

(** [{ ...annotation, startLine: s, endLine: e }]: a copy of the annotation
    with new bounds; the time stamp and the type are carried over. *)
Definition withLines (annotation : Annotation) (s e : Z) : Annotation :=
  {| startLine := s; endLine := e;
     timestamp := timestamp annotation; type := type annotation |}.

(** ** Array.prototype.sort

    The sort of ECMAScript is stable; the comparator returns a number, and an
    element [a] stays in front of [b] unless [cmp a b > 0].  Insertion from the
    right end is such a stable sort. *)
Section ArraySort.
Context {A : Type} (cmp : A -> A -> Z).

Fixpoint sortInsert (x : A) (l : list A) : list A :=
  match l with
  | [] => [x]
  | y :: l' => if cmp x y <=? 0 then x :: l else y :: sortInsert x l'
  end.

Fixpoint Array_sort (l : list A) : list A :=
  match l with
  | [] => []
  | x :: l' => sortInsert x (Array_sort l')
  end.
End ArraySort.

(** The comparators of the source. *)
Definition byStartLineAscending (a b : Annotation) : Z :=
  startLine a - startLine b.

Definition byStartLineDescending (a b : ContentChange) : Z :=
  ContentChange.startLine b - ContentChange.startLine a.

(** ** The wall clock

    [clock n] is the [n]-th reading of [new Date().toISOString()] from now on;
    a computation that reads the clock consumes readings. *)
Definition Clock : Type := nat -> string.

Definition Timed (A : Type) : Type := Clock -> A * Clock.

Definition ret {A : Type} (x : A) : Timed A := fun clock => (x, clock).

Definition bind {A B : Type} (m : Timed A) (f : A -> Timed B) : Timed B :=
  fun clock => let (x, clock') := m clock in f x clock'.

Notation "x <- m ;; k" := (bind m (fun x => k))
  (at level 61, m at next level, right associativity).

(** [new Date().toISOString()] *)
Definition Date_toISOString : Timed string :=
  fun clock => (clock 0%nat, fun n => clock (S n)).

(** ** annotationSystem.ts *)

(** The part of a [vscode.TextDocumentContentChangeEvent] the adapter reads;
    positions are 0-based. *)
Record Position : Type := mkPosition { line : Z; character : Z }.
Record Range : Type := mkRange { start : Position; end_ : Position }.
Record TextDocumentContentChangeEvent : Type := mkEvent {
  range : Range;
  rangeLength : Z;
  text : string
}.

(** [(text.match(/\n/g) || []).length] *)
Fixpoint countNewlines (s : string) : Z :=
  match s with
  | EmptyString => 0
  | String c s' =>
      (if Ascii.eqb c "010"%char then 1 else 0) + countNewlines s'
  end.

Definition extractContentChange (change : TextDocumentContentChangeEvent)
  : ContentChange :=
  let addedLines :=
    match text change with
    | EmptyString => 0
    | _ => countNewlines (text change)
    end in
  let deletedLines :=
    if 0 <? rangeLength change
    then line (end_ (range change)) - line (start (range change))
    else 0 in
  {| ContentChange.startLine := line (start (range change)) + 1;
     ContentChange.endLine := line (end_ (range change)) + 1;
     ContentChange.startCharacter := character (start (range change));
     ContentChange.endCharacter := character (end_ (range change));
     ContentChange.text := text change;
     ContentChange.rangeLength := rangeLength change;
     ContentChange.addedLines := addedLines;
     ContentChange.deletedLines := deletedLines |}.

Definition extractContentChanges
  (vsCodeChanges : list TextDocumentContentChangeEvent) : list ContentChange :=
  map extractContentChange vsCodeChanges.

(** [ann => ann.startLine <= ann.endLine] *)
Definition nonInverted (ann : Annotation) : bool :=
  startLine ann <=? endLine ann.

Definition processAnnotationForChangeAndClean
  (annotation : Annotation) (change : ContentChange) : list Annotation :=
  let results : list Annotation := [] in
  let deleteStart := ContentChange.startLine change in
  let deleteEnd := ContentChange.endLine change in
  let numDeletedLines := ContentChange.deletedLines change in
  let numInsertedLines := ContentChange.addedLines change in
  let numNetLineChange := numInsertedLines - numDeletedLines in
  (* Case 1: the annotation is completely before the replacement *)
  if endLine annotation <? deleteStart then
    results ++ [withLines annotation (startLine annotation) (endLine annotation)]
  (* Case 2: the annotation is completely after the replacement *)
  else if deleteEnd <? startLine annotation then
    results ++ [withLines annotation
                  (startLine annotation + numNetLineChange)
                  (endLine annotation + numNetLineChange)]
  else
    (* Case 3: the annotation overlaps the replaced range *)
    let results :=
      if startLine annotation <? deleteStart
      then results ++ [withLines annotation (startLine annotation) (deleteStart - 1)]
      else results in
    let results :=
      if deleteEnd <? endLine annotation
      then
        let afterStart := (deleteEnd + 1) + numNetLineChange in
        let numRemainingLines := endLine annotation - deleteEnd in
        let afterEnd := afterStart + numRemainingLines - 1 in
        results ++ [withLines annotation afterStart afterEnd]
      else results in
    filter nonInverted results.

(** The loop [for (const annotation of annotations) updatedAnnotations.push(...)]. *)
Definition updateAndCleanAnnotationsForContentChange
  (annotations : list Annotation) (change : ContentChange) : list Annotation :=
  fold_left
    (fun updatedAnnotations annotation =>
       updatedAnnotations ++ processAnnotationForChangeAndClean annotation change)
    annotations [].

Definition updateAndCleanAnnotationsForCommit
  (annotations : list Annotation) (changes : list ContentChange)
  : list Annotation :=
  let updatedRanges := annotations in
  let sortedChanges := Array_sort byStartLineDescending changes in
  fold_left updateAndCleanAnnotationsForContentChange sortedChanges updatedRanges.

(** The loop of the synthesizer: one clock reading and one annotation per
    change, in the order of the list. *)
Fixpoint addAnnotationsLoop (contentChanges : list ContentChange)
  (newAnnotations : list Annotation) : Timed (list Annotation) :=
  match contentChanges with
  | [] => ret newAnnotations
  | change :: rest =>
      now <- Date_toISOString ;;
      let newAnnotation :=
        {| startLine := ContentChange.startLine change;
           endLine := ContentChange.startLine change + ContentChange.addedLines change;
           timestamp := now;
           type := ai_generated |} in
      addAnnotationsLoop rest (newAnnotations ++ [newAnnotation])
  end.

Definition addAnnotationsForSignificantChanges
  (contentChanges : list ContentChange) : Timed (list Annotation) :=
  addAnnotationsLoop contentChanges [].

(** [squashed[squashed.length - 1]], with the elements in front of it. *)
Fixpoint splitLast {A : Type} (l : list A) : option (list A * A) :=
  match l with
  | [] => None
  | x :: l' =>
      match splitLast l' with
      | None => Some ([], x)
      | Some (front, y) => Some (x :: front, y)
      end
  end.

(** [current.timestamp > last.timestamp] on strings. *)
Definition String_gt (s1 s2 : string) : bool := String.ltb s2 s1.

(** One iteration of the loop of the merger.  [last] is updated in place when
    the ranges overlap or touch; otherwise [current] is pushed.  [squashed]
    is never empty in the loop, it starts as [[sorted[0]]]. *)
Definition squashStep (squashed : list Annotation) (current : Annotation)
  : list Annotation :=
  match splitLast squashed with
  | None => squashed
  | Some (front, last) =>
      if startLine current <=? endLine last + 1 then
        front ++
        [ {| startLine := startLine last;
             endLine := Z.max (endLine last) (endLine current);
             timestamp :=
               if String_gt (timestamp current) (timestamp last)
               then timestamp current else timestamp last;
             type := type last |} ]
      else squashed ++ [current]
  end.

Definition squashOverlappingAnnotations (annotations : list Annotation)
  : list Annotation :=
  if (List.length annotations <=? 1)%nat then annotations
  else
    let sorted := Array_sort byStartLineAscending annotations in
    match sorted with
    | [] => []
    | first :: rest => fold_left squashStep rest [first]
    end.

(** *** The merger on objects

    [squashOverlappingAnnotations] does not copy the annotations: [squashed]
    holds the objects of its argument, and [last.endLine = ...] and
    [last.timestamp = ...] write to them.  The module gives the loop on a
    store of objects, with arrays of references, to relate it to the merger
    on values above.  (The array itself is fresh in [applyChange], so that
    sorting it in place is not observed.) *)
Module InPlace.

Definition Ref : Type := nat.

Definition Store : Type := Ref -> Annotation.

(** [store] after an assignment to the object at [p]. *)
Definition assign (store : Store) (p : Ref) (v : Annotation) : Store :=
  fun q => if Nat.eqb q p then v else store q.

(** [p.endLine = e] *)
Definition setEndLine (store : Store) (p : Ref) (e : Z) : Store :=
  assign store p
    {| startLine := startLine (store p); endLine := e;
       timestamp := timestamp (store p); type := type (store p) |}.

(** [p.timestamp = t] *)
Definition setTimestamp (store : Store) (p : Ref) (t : string) : Store :=
  assign store p
    {| startLine := startLine (store p); endLine := endLine (store p);
       timestamp := t; type := type (store p) |}.

Definition squashStep (state : Store * list Ref) (current : Ref)
  : Store * list Ref :=
  let (store, squashed) := state in
  match splitLast squashed with
  | None => state
  | Some (_, last) =>
      if startLine (store current) <=? endLine (store last) + 1 then
        let store :=
          setEndLine store last
            (Z.max (endLine (store last)) (endLine (store current))) in
        let store :=
          setTimestamp store last
            (if String_gt (timestamp (store current)) (timestamp (store last))
             then timestamp (store current) else timestamp (store last)) in
        (store, squashed)
      else (store, squashed ++ [current])
  end.

Definition squashOverlappingAnnotations (store : Store)
  (annotations : list Ref) : Store * list Ref :=
  if (List.length annotations <=? 1)%nat then (store, annotations)
  else
    let sorted :=
      Array_sort (fun a b => byStartLineAscending (store a) (store b))
        annotations in
    match sorted with
    | [] => (store, [])
    | first :: rest => fold_left squashStep rest (store, [first])
    end.

End InPlace.

Definition applyChange (snapshot : Snapshot) (commit : Commit) : Timed Snapshot :=
  let updatedRanges :=
    updateAndCleanAnnotationsForCommit
      (Snapshot.highlightedRanges snapshot) (Commit.contentChanges commit) in
  updatedRanges <-
    (if Commit.isSignificant commit then
       newAnnotations <-
         addAnnotationsForSignificantChanges (Commit.contentChanges commit) ;;
       ret (updatedRanges ++ newAnnotations)
     else ret updatedRanges) ;;
  let updatedRanges := squashOverlappingAnnotations updatedRanges in
  now <- Date_toISOString ;;
  ret {| Snapshot.highlightedRanges := updatedRanges;
         Snapshot.lastUpdated := now;
         Snapshot.documentVersion := Commit.documentVersion commit |}.

(** The snapshot an invocation returns, for the clock it runs against. *)
Definition applyChangeResult (clock : Clock) (snapshot : Snapshot)
  (commit : Commit) : Snapshot :=
  fst (applyChange snapshot commit clock).

(** ** Vocabulary of the specification *)

(** The signed line shift of an edit, [addedLineCount - deletedLineCount]. *)
Definition delta (edit : ContentChange) : Z :=
  ContentChange.addedLines edit - ContentChange.deletedLines edit.

(** The annotation with both bounds moved by [d]. *)
Definition shifted (annotation : Annotation) (d : Z) : Annotation :=
  withLines annotation (startLine annotation + d) (endLine annotation + d).

(** [[annotation.startLine, edit.startLine - 1]] *)
Definition beforeFragment (annotation : Annotation) (edit : ContentChange)
  : Annotation :=
  withLines annotation (startLine annotation) (ContentChange.startLine edit - 1).

(** [[edit.endLine + 1 + delta,
      edit.endLine + 1 + delta + (annotation.endLine - edit.endLine) - 1]] *)
Definition afterFragment (annotation : Annotation) (edit : ContentChange)
  : Annotation :=
  withLines annotation
    (ContentChange.endLine edit + 1 + delta edit)
    (ContentChange.endLine edit + 1 + delta edit
     + (endLine annotation - ContentChange.endLine edit) - 1).

(** An annotation is well formed when its range is not inverted. *)
Definition validRange (a : Annotation) : Prop := startLine a <= endLine a.

(** An edit as the adapter [extractContentChanges] hands it over. *)
Record wellFormedEdit (edit : ContentChange) : Prop := {
  wf_start : 1 <= ContentChange.startLine edit;
  wf_order : ContentChange.startLine edit <= ContentChange.endLine edit;
  wf_added : 0 <= ContentChange.addedLines edit;
  wf_deleted :
    ContentChange.deletedLines edit
    <= ContentChange.endLine edit - ContentChange.startLine edit
}.

(** Two ranges share a line. *)
Definition overlap (a b : Annotation) : Prop :=
  startLine a <= endLine b /\ startLine b <= endLine a.

(** One range starts on the line after the last line of the other. *)
Definition adjacent (a b : Annotation) : Prop :=
  endLine a + 1 = startLine b \/ endLine b + 1 = startLine a.


(** *** Sorting, as the specification asks for it

    [sorted] is the list [l] sorted by [key] in ascending order, elements of
    equal key keeping the order they have in [l].  The last clause says that
    for each key the elements of that key are the same and in the same order;
    it makes [sorted] a permutation of [l]. *)
Definition stablySortedBy {A : Type} (key : A -> Z) (l sorted : list A) : Prop :=
  StronglySorted (fun a b => key a <= key b) sorted
  /\ forall k, filter (fun a => key a =? k) sorted
               = filter (fun a => key a =? k) l.

(** The edits sorted by [startLine], descending. *)
Definition sortedByStartLineDescending (edits sorted : list ContentChange)
  : Prop :=
  stablySortedBy (fun e => - ContentChange.startLine e) edits sorted.

(** The annotations sorted by [startLine], ascending. *)
Definition sortedByStartLineAscending (annotations sorted : list Annotation)
  : Prop :=
  stablySortedBy startLine annotations sorted.

(** *** The batch applier, as the specification words it *)

(** The range transform over the whole annotation list, for one edit. *)
Definition transformAll (annotations : list Annotation) (edit : ContentChange)
  : list Annotation :=
  flat_map (fun a => processAnnotationForChangeAndClean a edit) annotations.

(** The range transform folded over the annotation list once per edit, in the
    order of [edits]. *)
Definition foldRangeTransform (annotations : list Annotation)
  (edits : list ContentChange) : list Annotation :=
  fold_left transformAll edits annotations.

(** The comparator of the other order, [(a, b) => a.startLine - b.startLine]
    on edits, and the batch applier that would use it. *)
Definition editsByStartLineAscending (a b : ContentChange) : Z :=
  ContentChange.startLine a - ContentChange.startLine b.

Definition applyBatchAscending (annotations : list Annotation)
  (edits : list ContentChange) : list Annotation :=
  foldRangeTransform annotations (Array_sort editsByStartLineAscending edits).

(** *** The range merger, as the specification words it *)

(** The later of two time stamps. *)
Definition laterTimestamp (t1 t2 : string) : string :=
  match String.compare t1 t2 with
  | Lt => t2
  | _ => t1
  end.

(** [next] merged into [current]: the end is extended, the later time stamp
    is kept. *)
Definition mergeInto (current next : Annotation) : Annotation :=
  {| startLine := startLine current;
     endLine := Z.max (endLine current) (endLine next);
     timestamp := laterTimestamp (timestamp current) (timestamp next);
     type := type current |}.

(** The scan from left to right with a current merged range. *)
Fixpoint mergeScan (current : Annotation) (rest : list Annotation)
  : list Annotation :=
  match rest with
  | [] => [current]
  | next :: rest' =>
      if startLine next <=? endLine current + 1
      then mergeScan (mergeInto current next) rest'
      else current :: mergeScan next rest'
  end.

(** The interval merge of a list that is already sorted. *)
Definition mergeSorted (sorted : list Annotation) : list Annotation :=
  match sorted with
  | [] => []
  | first :: rest => mergeScan first rest
  end.

(** *** The annotation synthesizer, as the specification words it *)

(** The annotation an edit gives rise to:
    [{startLine: edit.startLine, endLine: edit.startLine + edit.addedLineCount,
      createdAt: now, kind: tool-generated}]. *)
Definition synthesizedAnnotation (edit : ContentChange) (now : string)
  : Annotation :=
  {| startLine := ContentChange.startLine edit;
     endLine := ContentChange.startLine edit + ContentChange.addedLines edit;
     timestamp := now;
     type := ai_generated |}.

(** One annotation per edit, in the order of the edits; the [i]-th one is
    stamped with the [i]-th reading of the clock. *)
Fixpoint synthesized (clock : Clock) (edits : list ContentChange)
  : list Annotation :=
  match edits with
  | [] => []
  | edit :: rest =>
      synthesizedAnnotation edit (clock 0%nat)
      :: synthesized (fun n => clock (S n)) rest
  end.

(** [a] is the annotation emitted for [edit], at some time. *)
Definition emittedFor (edit : ContentChange) (a : Annotation) : Prop :=
  startLine a = ContentChange.startLine edit
  /\ endLine a = ContentChange.startLine edit + ContentChange.addedLines edit
  /\ type a = ai_generated.

(** *** The snapshot invariant *)

(** [b] starts more than one line after the end of [a]: the two ranges
    neither overlap nor touch. *)
Definition separated (a b : Annotation) : Prop :=
  endLine a + 1 < startLine b.

(** The form of a merged list: no range is inverted, and each range starts
    more than one line after the end of the one in front of it. *)
Definition mergedForm (annotations : list Annotation) : Prop :=
  Forall validRange annotations /\ Sorted separated annotations.

(** [a] is closed in front of [b] by the scan: [b] starts no earlier than [a]
    and more than one line after its end. *)
Definition closedBefore (a b : Annotation) : Prop :=
  startLine a <= startLine b /\ separated a b.

(** The invariant of a snapshot: no range is inverted, and no two annotations
    at different places of the list overlap or touch. *)
Definition snapshotInvariant (annotations : list Annotation) : Prop :=
  Forall validRange annotations
  /\ forall (i j : nat) (a b : Annotation),
       i <> j ->
       nth_error annotations i = Some a ->
       nth_error annotations j = Some b ->
       ~ overlap a b /\ ~ adjacent a b.

(** The line range of an annotation, without its time stamp. *)
Definition lineRange (a : Annotation) : Z * Z := (startLine a, endLine a).

(** Two annotations cover the same lines. *)
Definition sameRange (a b : Annotation) : Prop :=
  startLine a = startLine b /\ endLine a = endLine b.

(** The number of clock readings [applyChange] makes before the one that
    stamps the snapshot. *)
Definition readingsBeforeStamp (commit : Commit) : nat :=
  if Commit.isSignificant commit
  then List.length (Commit.contentChanges commit) else 0%nat.

(** ** Sample data, after the test suite of the repository *)

Definition sampleTimestamp : string := "2024-01-01T00:00:00.000Z".

Definition sampleAnnotation (s e : Z) : Annotation :=
  {| startLine := s; endLine := e;
     timestamp := sampleTimestamp; type := ai_generated |}.

(** An edit of the lines [s..e] that adds [added] and deletes [deleted]
    lines. *)
Definition sampleEdit (s e added deleted : Z) : ContentChange :=
  {| ContentChange.startLine := s; ContentChange.endLine := e;
     ContentChange.startCharacter := 0; ContentChange.endCharacter := 0;
     ContentChange.text := ""; ContentChange.rangeLength := 0;
     ContentChange.addedLines := added;
     ContentChange.deletedLines := deleted |}.

(** A clock that stands still, and two clocks that differ. *)
Definition frozenClock (now : string) : Clock := fun _ => now.

Definition morningClock : Clock := frozenClock "2024-01-01T08:00:00.000Z".
Definition eveningClock : Clock := frozenClock "2024-01-01T20:00:00.000Z".

Definition sampleSnapshot (annotations : list Annotation) : Snapshot :=
  {| Snapshot.highlightedRanges := annotations;
     Snapshot.lastUpdated := sampleTimestamp;
     Snapshot.documentVersion := 1 |}.

(** A commit without edits that is not significant. *)
Definition emptyCommit (version : Z) : Commit :=
  {| Commit.documentVersion := version;
     Commit.isSignificant := false;
     Commit.contentChanges := [] |}.

(** ** Lines and what covers them *)

(** Line [l] lies in the range of [a]. *)
Definition covers (a : Annotation) (l : Z) : Prop :=
  startLine a <= l /\ l <= endLine a.

(** Line [l] is highlighted: some annotation of the list covers it. *)
Definition covered (annotations : list Annotation) (l : Z) : Prop :=
  exists a, In a annotations /\ covers a l.

(** Line [l] is one of the lines the edit replaces. *)
Definition touches (edit : ContentChange) (l : Z) : Prop :=
  ContentChange.startLine edit <= l /\ l <= ContentChange.endLine edit.

Definition touched (edits : list ContentChange) (l : Z) : Prop :=
  exists e, In e edits /\ touches e l.

(** The number of line [l] of the old document in the new one: the lines in
    front of the edit keep their number, the lines behind it move by the net
    line change, the replaced lines have no number of their own any more. *)
Definition lineAfterEdit (edit : ContentChange) (l : Z) : option Z :=
  if l <? ContentChange.startLine edit then Some l
  else if ContentChange.endLine edit <? l then Some (l + delta edit)
  else None.

(** The same along a list of edits, one after the other. *)
Fixpoint lineAfterEdits (edits : list ContentChange) (l : Z) : option Z :=
  match edits with
  | [] => Some l
  | edit :: rest =>
      match lineAfterEdit edit l with
      | Some l' => lineAfterEdits rest l'
      | None => None
      end
  end.

(** The sum of the net line changes of the edits that end in front of
    line [l]. *)
Fixpoint shiftOf (edits : list ContentChange) (l : Z) : Z :=
  match edits with
  | [] => 0
  | edit :: rest =>
      (if ContentChange.endLine edit <? l then delta edit else 0)
      + shiftOf rest l
  end.

(** Two edits replace no common line. *)
Definition disjointEdits (e1 e2 : ContentChange) : Prop :=
  ContentChange.endLine e1 < ContentChange.startLine e2
  \/ ContentChange.endLine e2 < ContentChange.startLine e1.

(** [e2] lies in front of [e1]. *)
Definition editBelow (e1 e2 : ContentChange) : Prop :=
  ContentChange.endLine e2 < ContentChange.startLine e1.

(** Two annotations neither overlap nor touch. *)
Definition apart (a b : Annotation) : Prop :=
  ~ overlap a b /\ ~ adjacent a b.

(** [r] takes [a] in: the range of [a] lies within the range of [r], as far
    as [a] starts, and the time stamp of [r] is not earlier. *)
Definition absorbs (r a : Annotation) : Prop :=
  startLine r <= startLine a
  /\ endLine a <= endLine r
  /\ String.leb (timestamp a) (timestamp r) = true.

(** Line [m] is one of the lines the synthesizer marks for [edit]. *)
Definition marks (edit : ContentChange) (m : Z) : Prop :=
  ContentChange.startLine edit <= m
  /\ m <= ContentChange.startLine edit + ContentChange.addedLines edit.

(** ** hoverProvider.ts *)

(** [findAnnotationAtPosition]; the position is 0-based. *)
Definition findAnnotationAtPosition (annotations : list Annotation)
  (position : Position) : option Annotation :=
  let lineNumber := line position + 1 in
  find (fun annotation =>
          (lineNumber >=? startLine annotation)
          && (lineNumber <=? endLine annotation))
    annotations.

(** A call returns a value or throws an [Error] with a message. *)
Inductive Result (A : Type) : Type :=
| Returns (value : A)
| Throws (message : string).
Arguments Returns {A} value.
Arguments Throws {A} message.

(** [Array.prototype.findIndex]; [None] stands for [-1]. *)
Fixpoint Array_findIndex {A : Type} (p : A -> bool) (l : list A) : option nat :=
  match l with
  | [] => None
  | x :: l' => if p x then Some 0%nat else option_map S (Array_findIndex p l')
  end.

(** [array.splice(index, 1)]: the array without the element at [index]. *)
Fixpoint Array_splice1 {A : Type} (index : nat) (l : list A) : list A :=
  match l, index with
  | [], _ => []
  | _ :: l', O => l'
  | x :: l', S i => x :: Array_splice1 i l'
  end.

(** The test of both removal commands:
    [annotation.startLine === startLine && annotation.endLine === endLine
     && annotation.timestamp === timestamp]. *)
Definition isAnnotation (startLine' endLine' : Z) (timestamp' : string)
  (annotation : Annotation) : bool :=
  (startLine annotation =? startLine')
  && (endLine annotation =? endLine')
  && String.eqb (timestamp annotation) timestamp'.

(** [removeAnnotation], from the snapshot [loadSnapshot] returns to the
    snapshot handed to [saveSnapshot]; the array of the loaded snapshot is
    changed in place, the other fields stay. *)
Definition removeAnnotation (snapshot : Snapshot) (startLine' endLine' : Z)
  (timestamp' : string) : Result Snapshot :=
  match Array_findIndex (isAnnotation startLine' endLine' timestamp')
          (Snapshot.highlightedRanges snapshot) with
  | None => Throws "Annotation not found"
  | Some annotationIndex =>
      Returns
        {| Snapshot.highlightedRanges :=
             Array_splice1 annotationIndex (Snapshot.highlightedRanges snapshot);
           Snapshot.lastUpdated := Snapshot.lastUpdated snapshot;
           Snapshot.documentVersion := Snapshot.documentVersion snapshot |}
  end.

(** [removePartialAnnotation], between [loadSnapshot] and [saveSnapshot] as
    well; each remaining part gets the time of its creation. *)
Definition removePartialAnnotation (snapshot : Snapshot)
  (annotationStartLine annotationEndLine removeStartLine removeEndLine : Z)
  (timestamp' : string) : Timed (Result Snapshot) :=
  match Array_findIndex
          (isAnnotation annotationStartLine annotationEndLine timestamp')
          (Snapshot.highlightedRanges snapshot) with
  | None => ret (Throws "Annotation not found")
  | Some annotationIndex =>
      match nth_error (Snapshot.highlightedRanges snapshot) annotationIndex with
      | None => ret (Throws "TypeError")
      | Some originalAnnotation =>
          let highlightedRanges :=
            Array_splice1 annotationIndex (Snapshot.highlightedRanges snapshot) in
          let newAnnotations : list Annotation := [] in
          newAnnotations <-
            (if startLine originalAnnotation <? removeStartLine then
               now <- Date_toISOString ;;
               ret (newAnnotations ++
                    [ {| startLine := startLine originalAnnotation;
                         endLine := removeStartLine - 1;
                         timestamp := now;
                         type := type originalAnnotation |} ])
             else ret newAnnotations) ;;
          newAnnotations <-
            (if removeEndLine <? endLine originalAnnotation then
               now <- Date_toISOString ;;
               ret (newAnnotations ++
                    [ {| startLine := removeEndLine + 1;
                         endLine := endLine originalAnnotation;
                         timestamp := now;
                         type := type originalAnnotation |} ])
             else ret newAnnotations) ;;
          ret (Returns
                 {| Snapshot.highlightedRanges :=
                      highlightedRanges ++ newAnnotations;
                    Snapshot.lastUpdated := Snapshot.lastUpdated snapshot;
                    Snapshot.documentVersion :=
                      Snapshot.documentVersion snapshot |})
      end
  end.

(** The part of an annotation in front of the removed lines, and the part
    behind them. *)
Definition partInFront (a : Annotation) (removeStartLine : Z) (now : string)
  : Annotation :=
  {| startLine := startLine a; endLine := removeStartLine - 1;
     timestamp := now; type := type a |}.

Definition partBehind (a : Annotation) (removeEndLine : Z) (now : string)
  : Annotation :=
  {| startLine := removeEndLine + 1; endLine := endLine a;
     timestamp := now; type := type a |}.

(** The snapshot with another annotation list. *)
Definition withRanges (snapshot : Snapshot) (ranges : list Annotation)
  : Snapshot :=
  {| Snapshot.highlightedRanges := ranges;
     Snapshot.lastUpdated := Snapshot.lastUpdated snapshot;
     Snapshot.documentVersion := Snapshot.documentVersion snapshot |}.

(** The remaining parts of [a] around the removed lines, as
    [removePartialAnnotation] creates them, stamped with the clock. *)
Definition remainingParts (a : Annotation) (removeStartLine removeEndLine : Z)
  (clock : Clock) : list Annotation :=
  (if startLine a <? removeStartLine
   then [partInFront a removeStartLine (clock 0%nat)] else [])
  ++ (if removeEndLine <? endLine a
      then [partBehind a removeEndLine
              (clock (if startLine a <? removeStartLine then 1%nat else 0%nat))]
      else []).

(** [f] is a range within the range of [a] that is not inverted. *)
Definition within (a f : Annotation) : Prop :=
  startLine a <= startLine f /\ startLine f <= endLine f
  /\ endLine f <= endLine a.

(** ** heuristicsSystem.ts

    A [string] is a sequence of code units, of which the model holds those
    below 256, one [ascii] each.  Of these, [String.prototype.trim] removes
    the white space and line terminators TAB, LF, VT, FF, CR, SP and NBSP. *)

Definition isWhiteSpace (c : ascii) : bool :=
  let n := nat_of_ascii c in
  ((9 <=? n) && (n <=? 13) || (n =? 32) || (n =? 160))%nat.

Fixpoint String_trimStart (s : string) : string :=
  match s with
  | EmptyString => EmptyString
  | String c s' => if isWhiteSpace c then String_trimStart s' else s
  end.

Fixpoint String_trimEnd (s : string) : string :=
  match s with
  | EmptyString => EmptyString
  | String c s' =>
      match String_trimEnd s' with
      | EmptyString => if isWhiteSpace c then EmptyString else String c EmptyString
      | rest => String c rest
      end
  end.

(** [text.trim()] *)
Definition String_trim (s : string) : string :=
  String_trimEnd (String_trimStart s).

(** The fields of a [HeuristicsSystem] that its checks read: the set of
    recent user actions, as the list of its elements, and the suspension
    flag. *)
Record HeuristicsSystem : Type := mkHeuristicsSystem {
  recentActions : list string;
  gitOperationSuspended : bool
}.

Definition shouldFilterChange (this : HeuristicsSystem) (changeText : string)
  (addedLines : Z) : bool :=
  if gitOperationSuspended this then true
  else if (0 <? List.length (recentActions this))%nat then true
  else false.

Definition passesBasicSignificanceCheck (text' : string) (addedLines : Z)
  : bool :=
  match text' with
  | EmptyString => false
  | _ =>
      if (String.length (String_trim text') =? 0)%nat then false
      else if (String.length (String_trim text') =? 1)%nat then false
      else true
  end.

Definition isIndividualChangeSignificant (this : HeuristicsSystem)
  (change : ContentChange) : bool :=
  if shouldFilterChange this (ContentChange.text change)
       (ContentChange.addedLines change)
  then false
  else if negb (passesBasicSignificanceCheck (ContentChange.text change)
                  (ContentChange.addedLines change))
  then false
  else true.

(** The loop of [isChangeSignificant], which returns at the first
    significant change. *)
Fixpoint isChangeSignificantLoop (this : HeuristicsSystem)
  (contentChanges : list ContentChange) : bool :=
  match contentChanges with
  | [] => false
  | change :: rest =>
      if isIndividualChangeSignificant this change then true
      else isChangeSignificantLoop this rest
  end.

Definition isChangeSignificant (this : HeuristicsSystem)
  (contentChanges : list ContentChange) : bool :=
  if (List.length contentChanges =? 0)%nat then false
  else isChangeSignificantLoop this contentChanges.

(** The number of code units of a string that are not white space. *)
Fixpoint countNonWhiteSpace (s : string) : nat :=
  match s with
  | EmptyString => 0%nat
  | String c s' =>
      ((if isWhiteSpace c then 0 else 1) + countNonWhiteSpace s')%nat
  end.

(** ** documentChangeHandler.ts *)

(** [vscode.TextDocumentChangeReason]; an event without reason carries
    [undefined]. *)
Inductive TextDocumentChangeReason : Type := Undo | Redo.

(** What [handleDocumentChange] reads of a [vscode.TextDocumentChangeEvent]:
    the version of its document, its content changes and its reason. *)
Module ChangeEvent.
Record t : Type := mk {
  documentVersion : Z;
  contentChanges : list TextDocumentContentChangeEvent;
  reason : option TextDocumentChangeReason
}.
End ChangeEvent.

(** [handleDocumentChange], from the snapshot [loadSnapshot] returns to the
    snapshot handed to [saveSnapshot]; [monitored] is the answer of
    [shouldMonitorDocument], and nothing is saved for a document that is not
    monitored. *)
Definition handleDocumentChange (heuristicsSystem : HeuristicsSystem)
  (monitored : bool) (currentSnapshot : Snapshot) (event : ChangeEvent.t)
  : Timed (option Snapshot) :=
  if negb monitored then ret None
  else
    let contentChanges :=
      extractContentChanges (ChangeEvent.contentChanges event) in
    let isSignificant :=
      match ChangeEvent.reason event with
      | Some _ => false
      | None => isChangeSignificant heuristicsSystem contentChanges
      end in
    let commit :=
      {| Commit.documentVersion := ChangeEvent.documentVersion event;
         Commit.isSignificant := isSignificant;
         Commit.contentChanges := contentChanges |} in
    newSnapshot <- applyChange currentSnapshot commit ;;
    ret (Some newSnapshot).

(** The ranges of the events of the editor are ordered, and no line number
    is negative. *)
Definition orderedRange (ev : TextDocumentContentChangeEvent) : Prop :=
  0 <= line (start (range ev))
  /\ line (start (range ev)) <= line (end_ (range ev)).

(** ** The adapter and the file name of a snapshot *)

(** What [extractContentChanges] makes of one event. *)
Definition extractedFrom (ev : TextDocumentContentChangeEvent)
  (e : ContentChange) : Prop :=
  ContentChange.startLine e = line (start (range ev)) + 1
  /\ ContentChange.endLine e = line (end_ (range ev)) + 1
  /\ ContentChange.addedLines e = countNewlines (text ev)
  /\ 0 <= ContentChange.deletedLines e
  /\ ContentChange.deletedLines e
     <= line (end_ (range ev)) - line (start (range ev))
  /\ ContentChange.text e = text ev.

(** An event that replaces nothing has an empty range. *)
Definition emptyRangeWhenNothingReplaced
  (ev : TextDocumentContentChangeEvent) : Prop :=
  0 < rangeLength ev \/ line (start (range ev)) = line (end_ (range ev)).

(** The class [[a-zA-Z0-9.-]] of [getSnapshotPath]. *)
Definition isSafeFilenameChar (c : ascii) : bool :=
  let n := nat_of_ascii c in
  ((97 <=? n) && (n <=? 122) || (65 <=? n) && (n <=? 90)
   || (48 <=? n) && (n <=? 57) || (n =? 46) || (n =? 45))%nat.

(** [relativePath.replace(/[^a-zA-Z0-9.-]/g, '_')], the file name
    [getSnapshotPath] gives the snapshot of a document (before the suffix
    [.annotations.json]). *)
Fixpoint safeFilename (relativePath : string) : string :=
  match relativePath with
  | EmptyString => EmptyString
  | String c rest =>
      String (if isSafeFilenameChar c then c else "_"%char) (safeFilename rest)
  end.

(** Two paths of equal length that agree wherever one of them has a
    character of the class. *)
Fixpoint sameSafeChars (p q : string) : Prop :=
  match p, q with
  | EmptyString, EmptyString => True
  | String c p', String d q' =>
      (c = d \/ (isSafeFilenameChar c = false /\ isSafeFilenameChar d = false))
      /\ sameSafeChars p' q'
  | _, _ => False
  end.

(** ** Suspension by git operations (heuristicsSystem.ts) *)

(** [haystack.includes(needle)] *)
Fixpoint String_includes (needle haystack : string) : bool :=
  if String.prefix needle haystack then true
  else
    match haystack with
    | EmptyString => false
    | String _ rest => String_includes needle rest
    end.

(** The git commands that modify files, of [setupGitDetection]. *)
Definition gitCommands : list string :=
  [ "git checkout"; "git merge"; "git pull"; "git rebase"; "git reset";
    "git stash pop"; "git stash apply"; "git cherry-pick"; "git revert" ]%string.

(** [resumeAIDetection] clears the flag.  The notification it shows has no
    item to choose and is not waited for. *)
Definition resumeAIDetection (this : HeuristicsSystem) : HeuristicsSystem :=
  {| recentActions := recentActions this; gitOperationSuspended := false |}.

(** [isAIDetectionSuspended] *)
Definition isAIDetectionSuspended (this : HeuristicsSystem) : bool :=
  gitOperationSuspended this.

(** A notification with items to choose from, as [showInformationMessage]
    shows it.  Its promise resolves to the item chosen, or to [undefined]
    when the notification is dismissed: [Some item] and [None] below. *)
Record Notification : Type := mkNotification {
  message : string;
  items : list string
}.

(** [suspendAIDetection] is an [async] method with one [await].  It runs in
    two parts: the first, within the call, up to the [await]; the second when
    the awaited notification is answered, on the object as it is by then.

    The first part: nothing when the flag is set already; otherwise the flag
    is set and the notification shown.  The result is the object and the
    notification the method now waits for, if any. *)
Definition suspendAIDetection (this : HeuristicsSystem)
  : HeuristicsSystem * option Notification :=
  if gitOperationSuspended this then (this, None)
  else
    ({| recentActions := recentActions this; gitOperationSuspended := true |},
     Some (mkNotification
             "Git operation detected, suspending AI code highlighting"
             ["Resume Highlighting"%string])).

(** The second part, after the [await], for the [result] of the notification:
    [if (result === 'Resume Highlighting') this.resumeAIDetection()]. *)
Definition suspendAIDetection_afterAwait (result : option string)
  (this : HeuristicsSystem) : HeuristicsSystem :=
  match result with
  | Some item =>
      if String.eqb item "Resume Highlighting" then resumeAIDetection this
      else this
  | None => this
  end.

(** The listener of [onDidStartTerminalShellExecution], for the command line
    of the execution.  It calls [suspendAIDetection] without waiting for it:
    the listener returns when the method reaches its [await]. *)
Definition shellExecutionListener (this : HeuristicsSystem)
  (commandLine : string) : HeuristicsSystem * option Notification :=
  if existsb (fun cmd => String_includes cmd commandLine) gitCommands
  then suspendAIDetection this
  else (this, None).

(** The heuristics system while the extension runs: the object, and the
    number of calls of [suspendAIDetection] that wait at their [await] for
    the answer to their notification. *)
Record Session : Type := mkSession {
  system : HeuristicsSystem;
  awaited : nat
}.

(** What reads or writes [gitOperationSuspended] while the extension runs: a
    shell execution starts in a terminal; one of the awaited notifications is
    answered with an item or dismissed; [resumeAIDetection], a public method,
    is called. *)
Inductive SessionEvent : Type :=
| TerminalShellExecution (commandLine : string)
| NotificationAnswered (result : option string)
| ResumeAIDetectionCalled.

Definition sessionStep (session : Session) (event : SessionEvent) : Session :=
  match event with
  | TerminalShellExecution commandLine =>
      let '(this, shown) :=
        shellExecutionListener (system session) commandLine in
      {| system := this;
         awaited := match shown with
                    | Some _ => S (awaited session)
                    | None => awaited session
                    end |}
  | NotificationAnswered result =>
      match awaited session with
      | O => session
      | S rest =>
          {| system := suspendAIDetection_afterAwait result (system session);
             awaited := rest |}
      end
  | ResumeAIDetectionCalled =>
      {| system := resumeAIDetection (system session);
         awaited := awaited session |}
  end.

Definition sessionRun (session : Session) (events : list SessionEvent)
  : Session :=
  fold_left sessionStep events session.

(** The events that cannot call [resumeAIDetection]: shell executions, and
    notifications dismissed or answered with another item than
    'Resume Highlighting'. *)
Definition keepsSuspension (event : SessionEvent) : bool :=
  match event with
  | TerminalShellExecution _ => true
  | NotificationAnswered (Some item) =>
      negb (String.eqb item "Resume Highlighting")
  | NotificationAnswered None => true
  | ResumeAIDetectionCalled => false
  end.

(** ** The range transform *)

Lemma withLines_same (a : Annotation) :
  withLines a (startLine a) (endLine a) = a.
Proof. destruct a; reflexivity. Qed.

Ltac split_tests :=
  repeat match goal with
    | |- context [ ?x <? ?y ] => destruct (Z.ltb_spec x y)
    | |- context [ ?x <=? ?y ] => destruct (Z.leb_spec x y)
    | H : context [ ?x <? ?y ] |- _ => destruct (Z.ltb_spec x y)
    | H : context [ ?x <=? ?y ] |- _ => destruct (Z.leb_spec x y)
    end.

Ltac open_transform :=
  unfold processAnnotationForChangeAndClean, shifted, beforeFragment,
    afterFragment, delta, nonInverted, withLines;
  cbn [app filter startLine endLine timestamp type].

(** The three regions of the decision procedure, as the code tests them. *)
Lemma transform_before (a : Annotation) (e : ContentChange) :
  endLine a < ContentChange.startLine e ->
  processAnnotationForChangeAndClean a e = [a].
Proof.
  intros H. unfold processAnnotationForChangeAndClean.
  destruct (Z.ltb_spec (endLine a) (ContentChange.startLine e)); [|lia].
  cbn. now rewrite withLines_same.
Qed.

Lemma transform_after (a : Annotation) (e : ContentChange) :
  ContentChange.startLine e <= endLine a ->
  ContentChange.endLine e < startLine a ->
  processAnnotationForChangeAndClean a e = [shifted a (delta e)].
Proof.
  intros H1 H2. unfold processAnnotationForChangeAndClean.
  destruct (Z.ltb_spec (endLine a) (ContentChange.startLine e)); [lia|].
  destruct (Z.ltb_spec (ContentChange.endLine e) (startLine a)); [|lia].
  reflexivity.
Qed.

Lemma transform_overlap (a : Annotation) (e : ContentChange) :
  ContentChange.startLine e <= endLine a ->
  startLine a <= ContentChange.endLine e ->
  processAnnotationForChangeAndClean a e =
    (if startLine a <? ContentChange.startLine e
     then [beforeFragment a e] else [])
    ++ (if ContentChange.endLine e <? endLine a
        then [afterFragment a e] else []).
Proof.
  intros H1 H2. unfold processAnnotationForChangeAndClean.
  destruct (Z.ltb_spec (endLine a) (ContentChange.startLine e)); [lia|].
  destruct (Z.ltb_spec (ContentChange.endLine e) (startLine a)); [lia|].
  destruct (Z.ltb_spec (startLine a) (ContentChange.startLine e));
    destruct (Z.ltb_spec (ContentChange.endLine e) (endLine a));
    open_transform; split_tests; try lia; reflexivity.
Qed.

(** In the overlap region no fragment is inverted: the filter of the last line
    keeps everything. *)
Lemma overlap_fragments_valid (a : Annotation) (e : ContentChange) :
  let fragments :=
    (if startLine a <? ContentChange.startLine e
     then [beforeFragment a e] else [])
    ++ (if ContentChange.endLine e <? endLine a
        then [afterFragment a e] else []) in
  filter nonInverted fragments = fragments.
Proof.
  destruct (Z.ltb_spec (startLine a) (ContentChange.startLine e));
    destruct (Z.ltb_spec (ContentChange.endLine e) (endLine a));
    open_transform; split_tests; try lia; reflexivity.
Qed.

(** With a range that is not inverted on either side, the first two regions
    exclude each other, so the order of the tests does not matter. *)
Lemma before_after_exclusive (a : Annotation) (e : ContentChange) :
  validRange a ->
  ContentChange.startLine e <= ContentChange.endLine e ->
  startLine a > ContentChange.endLine e ->
  ContentChange.startLine e <= endLine a.
Proof. unfold validRange. lia. Qed.

(** C1.  The range transform follows the decision procedure of the
    specification, in its order.  An annotation that ends before the edit
    starts is returned unchanged.  Otherwise, an annotation that starts after
    the edit ends is returned with both bounds shifted by [delta]; when
    neither range is inverted the first case is excluded of itself.  Otherwise
    the ranges overlap and the result holds at most two fragments: the
    before-fragment exactly when the annotation starts before the edit, then
    the after-fragment exactly when the annotation ends after the edit; the
    result is what remains of these fragments once inverted ones are
    discarded (none is), and it is empty when the edit covers the
    annotation. *)
Theorem range_transform_decision (a : Annotation) (e : ContentChange) :
  let result := processAnnotationForChangeAndClean a e in
  let fragments :=
    (if startLine a <? ContentChange.startLine e
     then [beforeFragment a e] else [])
    ++ (if ContentChange.endLine e <? endLine a
        then [afterFragment a e] else []) in
  (endLine a < ContentChange.startLine e -> result = [a])
  /\ (ContentChange.startLine e <= endLine a ->
      startLine a > ContentChange.endLine e ->
      result = [shifted a (delta e)])
  /\ (validRange a ->
      ContentChange.startLine e <= ContentChange.endLine e ->
      startLine a > ContentChange.endLine e ->
      result = [shifted a (delta e)])
  /\ (ContentChange.startLine e <= endLine a ->
      startLine a <= ContentChange.endLine e ->
      result = fragments
      /\ result = filter nonInverted fragments
      /\ (List.length result <= 2)%nat
      /\ (In (beforeFragment a e) result
          <-> startLine a < ContentChange.startLine e)
      /\ (In (afterFragment a e) result
          <-> endLine a > ContentChange.endLine e)
      /\ (ContentChange.startLine e <= startLine a ->
          endLine a <= ContentChange.endLine e ->
          result = [])).
Proof.
  cbv zeta. split; [|split; [|split]].
  - apply transform_before.
  - intros H1 H2. apply transform_after; lia.
  - intros V He H2. pose proof (before_after_exclusive a e V He H2).
    apply transform_after; lia.
  - intros H1 H2.
    rewrite overlap_fragments_valid, (transform_overlap a e H1 H2).
    repeat split.
    + destruct (startLine a <? ContentChange.startLine e),
        (ContentChange.endLine e <? endLine a); cbn; lia.
    + destruct (Z.ltb_spec (startLine a) (ContentChange.startLine e)); [easy|].
      destruct (Z.ltb_spec (ContentChange.endLine e) (endLine a));
        cbn; [|tauto].
      intros [E|[]].
      unfold afterFragment, beforeFragment, delta, withLines in E.
      injection E as E1 E2. lia.
    + destruct (Z.ltb_spec (startLine a) (ContentChange.startLine e));
        [intros _; now left | lia].
    + destruct (Z.ltb_spec (ContentChange.endLine e) (endLine a)); [lia|].
      destruct (Z.ltb_spec (startLine a) (ContentChange.startLine e));
        cbn; [|tauto].
      intros [E|[]].
      unfold afterFragment, beforeFragment, delta, withLines in E.
      injection E as E1 E2. lia.
    + destruct (Z.ltb_spec (ContentChange.endLine e) (endLine a)); [|lia].
      intros _. apply in_or_app. right. now left.
    + intros H3 H4.
      destruct (Z.ltb_spec (startLine a) (ContentChange.startLine e)); [lia|].
      destruct (Z.ltb_spec (ContentChange.endLine e) (endLine a)); [lia|].
      reflexivity.
Qed.

Lemma range_transform_decision_witness :
  processAnnotationForChangeAndClean
    (sampleAnnotation 10 12) (sampleEdit 100 100 1000 0)
  = [sampleAnnotation 10 12]
  /\ processAnnotationForChangeAndClean
       (sampleAnnotation 2000 2005) (sampleEdit 100 100 1000 0)
     = [sampleAnnotation 3000 3005]
  /\ processAnnotationForChangeAndClean
       (sampleAnnotation 3 8) (sampleEdit 5 6 0 1)
     = [sampleAnnotation 3 4; sampleAnnotation 6 7]
  /\ processAnnotationForChangeAndClean
       (sampleAnnotation 5 6) (sampleEdit 4 7 0 0)
     = [].
Proof.
  split; [|split; [|split]].
  - apply (proj1 (range_transform_decision
                    (sampleAnnotation 10 12) (sampleEdit 100 100 1000 0))).
    cbn. lia.
  - apply (proj1 (proj2 (range_transform_decision
                    (sampleAnnotation 2000 2005) (sampleEdit 100 100 1000 0))));
      cbn; lia.
  - destruct (range_transform_decision
                (sampleAnnotation 3 8) (sampleEdit 5 6 0 1)) as (_ & _ & _ & H).
    apply H; cbn; lia.
  - destruct (range_transform_decision
                (sampleAnnotation 5 6) (sampleEdit 4 7 0 0)) as (_ & _ & _ & H).
    apply H; cbn; lia.
Defined.

(** The adapter produces well-formed edits from the change events of the
    editor, whose ranges are ordered and whose lines are not negative. *)
Lemma countNewlines_nonneg (s : string) : 0 <= countNewlines s.
Proof.
  induction s as [|c s IH]; cbn [countNewlines]; [lia|].
  destruct (Ascii.eqb c "010"%char); lia.
Qed.

Lemma extractContentChange_wellFormed (ev : TextDocumentContentChangeEvent) :
  0 <= line (start (range ev)) ->
  line (start (range ev)) <= line (end_ (range ev)) ->
  wellFormedEdit (extractContentChange ev).
Proof.
  intros H0 H1. unfold extractContentChange.
  constructor; cbn.
  - lia.
  - lia.
  - destruct (text ev) eqn:E; [lia|]. apply countNewlines_nonneg.
  - destruct (0 <? rangeLength ev); lia.
Qed.

Lemma extractContentChanges_wellFormed
  (evs : list TextDocumentContentChangeEvent) :
  Forall (fun ev => 0 <= line (start (range ev))
                    /\ line (start (range ev)) <= line (end_ (range ev))) evs ->
  Forall wellFormedEdit (extractContentChanges evs).
Proof.
  unfold extractContentChanges. intros H. apply Forall_map.
  eapply Forall_impl; [|exact H].
  intros ev [H0 H1]. now apply extractContentChange_wellFormed.
Qed.

(** C10.  On an annotation that starts at line 1 or later and is not
    inverted, and a well-formed edit, every annotation the range transform
    returns starts at line 1 or later. *)
Theorem range_transform_lines_positive (a : Annotation) (e : ContentChange) :
  1 <= startLine a ->
  startLine a <= endLine a ->
  wellFormedEdit e ->
  Forall (fun r => 1 <= startLine r) (processAnnotationForChangeAndClean a e).
Proof.
  intros Hpos Hval [W1 W2 W3 W4].
  destruct (Z.lt_ge_cases (endLine a) (ContentChange.startLine e)) as [B|B].
  - rewrite transform_before by assumption. now constructor.
  - destruct (Z.lt_ge_cases (ContentChange.endLine e) (startLine a)) as [C|C].
    + rewrite transform_after by lia.
      constructor; [|constructor]. unfold shifted, delta; cbn. lia.
    + rewrite transform_overlap by lia.
      apply Forall_app. split.
      * destruct (startLine a <? ContentChange.startLine e);
          constructor; [|constructor]. cbn. lia.
      * destruct (ContentChange.endLine e <? endLine a);
          constructor; [|constructor]. unfold afterFragment, delta; cbn. lia.
Qed.

Lemma range_transform_lines_positive_witness :
  Forall (fun r => 1 <= startLine r)
    (processAnnotationForChangeAndClean
       (sampleAnnotation 3 8) (sampleEdit 5 6 0 1)).
Proof.
  apply (range_transform_lines_positive
           (sampleAnnotation 3 8) (sampleEdit 5 6 0 1)).
  - cbn. lia.
  - cbn. lia.
  - constructor; cbn; lia.
Defined.

(** ** Array.prototype.sort *)

Section SortFacts.
Context {A : Type} (cmp : A -> A -> Z) (key : A -> Z).
Hypothesis cmp_key : forall a b, cmp a b = key a - key b.

Lemma sortInsert_perm (x : A) (l : list A) :
  Permutation (x :: l) (sortInsert cmp x l).
Proof.
  induction l as [|y l IH]; cbn; [reflexivity|].
  destruct (cmp x y <=? 0); [reflexivity|].
  rewrite perm_swap. now constructor.
Qed.

Lemma Array_sort_perm (l : list A) : Permutation l (Array_sort cmp l).
Proof.
  induction l as [|x l IH]; cbn; [constructor|].
  rewrite <- sortInsert_perm. now constructor.
Qed.

Lemma Array_sort_length (l : list A) :
  List.length (Array_sort cmp l) = List.length l.
Proof. symmetry. apply Permutation_length, Array_sort_perm. Qed.

Lemma sortInsert_sorted (x : A) (l : list A) :
  StronglySorted (fun a b => key a <= key b) l ->
  StronglySorted (fun a b => key a <= key b) (sortInsert cmp x l).
Proof.
  induction 1 as [|y l Hl IH Hy]; cbn.
  - repeat constructor.
  - rewrite cmp_key. destruct (Z.leb_spec (key x - key y) 0).
    + constructor; [now constructor|].
      constructor; [lia|].
      eapply Forall_impl; [|exact Hy]. cbn. intros; lia.
    + constructor; [exact IH|].
      eapply Permutation_Forall; [apply sortInsert_perm|].
      constructor; [lia|exact Hy].
Qed.

Lemma Array_sort_sorted (l : list A) :
  StronglySorted (fun a b => key a <= key b) (Array_sort cmp l).
Proof.
  induction l as [|x l IH]; cbn; [constructor|].
  now apply sortInsert_sorted.
Qed.

Lemma sortInsert_filter (k : Z) (x : A) (l : list A) :
  filter (fun a => key a =? k) (sortInsert cmp x l)
  = filter (fun a => key a =? k) (x :: l).
Proof.
  induction l as [|y l IH]; [reflexivity|].
  cbn [sortInsert]. rewrite cmp_key.
  destruct (Z.leb_spec (key x - key y) 0); [reflexivity|].
  cbn [filter] in *. rewrite IH.
  destruct (Z.eqb_spec (key x) k), (Z.eqb_spec (key y) k);
    try reflexivity; lia.
Qed.

Lemma Array_sort_stable (k : Z) (l : list A) :
  filter (fun a => key a =? k) (Array_sort cmp l)
  = filter (fun a => key a =? k) l.
Proof.
  induction l as [|x l IH]; [reflexivity|].
  cbn [Array_sort]. rewrite sortInsert_filter. cbn [filter].
  now rewrite IH.
Qed.

(** The model of [sort] meets the specification of a stable sort... *)
Lemma Array_sort_stablySorted (l : list A) :
  stablySortedBy key l (Array_sort cmp l).
Proof.
  split; [apply Array_sort_sorted | intros k; apply Array_sort_stable].
Qed.

(** ... and a list that is in order already is left as it is. *)
Lemma Array_sort_of_sorted (l : list A) :
  Sorted (fun a b => key a <= key b) l -> Array_sort cmp l = l.
Proof.
  induction 1 as [|x l Hl IH Hx]; [reflexivity|].
  cbn [Array_sort]. rewrite IH.
  destruct Hx as [|y l Hxy]; [reflexivity|].
  cbn [sortInsert]. rewrite cmp_key.
  destruct (Z.leb_spec (key x - key y) 0); [reflexivity|lia].
Qed.
End SortFacts.

(** A stable sort has one result only, whatever the algorithm. *)
Lemma stablySorted_unique {A : Type} (key : A -> Z) (l1 l2 : list A) :
  StronglySorted (fun a b => key a <= key b) l1 ->
  StronglySorted (fun a b => key a <= key b) l2 ->
  (forall k, filter (fun a => key a =? k) l1
             = filter (fun a => key a =? k) l2) ->
  l1 = l2.
Proof.
  intros S1. revert l2.
  induction S1 as [|x l1 S1 IH Hx]; intros l2 S2 F.
  - destruct l2 as [|y l2]; [reflexivity|].
    specialize (F (key y)). cbn in F. now rewrite Z.eqb_refl in F.
  - destruct S2 as [|y l2 S2 Hy].
    + specialize (F (key x)). cbn in F. now rewrite Z.eqb_refl in F.
    + assert (K : key x = key y).
      { apply Z.le_antisymm.
        - pose proof (F (key y)) as F1. cbn in F1.
          rewrite Z.eqb_refl in F1.
          destruct (Z.eqb_spec (key x) (key y)) as [E|N]; [lia|].
          assert (I : In y (filter (fun a => key a =? key y) l1))
            by (rewrite F1; now left).
          apply filter_In in I. destruct I as [I _].
          rewrite Forall_forall in Hx. now apply Hx.
        - pose proof (F (key x)) as F1. cbn in F1.
          rewrite Z.eqb_refl in F1.
          destruct (Z.eqb_spec (key y) (key x)) as [E|N]; [lia|].
          assert (I : In x (filter (fun a => key a =? key x) l2))
            by (rewrite <- F1; now left).
          apply filter_In in I. destruct I as [I _].
          rewrite Forall_forall in Hy. now apply Hy. }
      pose proof (F (key x)) as F0. cbn in F0.
      rewrite Z.eqb_refl, <- K, Z.eqb_refl in F0.
      injection F0 as E0 F0. subst y. f_equal.
      apply IH; [exact S2|]. intros k.
      destruct (Z.eq_dec k (key x)) as [->|N]; [exact F0|].
      specialize (F k). cbn in F.
      destruct (Z.eqb_spec (key x) k); [lia|]. exact F.
Qed.

Lemma stablySortedBy_unique {A : Type} (key : A -> Z) (l s1 s2 : list A) :
  stablySortedBy key l s1 -> stablySortedBy key l s2 -> s1 = s2.
Proof.
  intros [S1 F1] [S2 F2]. apply (stablySorted_unique key); try assumption.
  intros k. now rewrite F1, F2.
Qed.

Lemma stablySortedBy_perm {A : Type} (cmp : A -> A -> Z) (key : A -> Z)
  (l sorted : list A) :
  (forall a b, cmp a b = key a - key b) ->
  stablySortedBy key l sorted -> Permutation l sorted.
Proof.
  intros Hc Hs.
  rewrite (stablySortedBy_unique key l sorted (Array_sort cmp l) Hs
             (Array_sort_stablySorted cmp key Hc l)).
  apply Array_sort_perm.
Qed.

(** ** The batch applier *)

Lemma push_loop_flat_map {A B : Type} (f : A -> list B) (l : list A)
  (acc : list B) :
  fold_left (fun out x => out ++ f x) l acc = acc ++ flat_map f l.
Proof.
  revert acc. induction l as [|x l IH]; intros acc; cbn.
  - now rewrite app_nil_r.
  - now rewrite IH, app_assoc.
Qed.

Lemma updateAndCleanAnnotationsForContentChange_transformAll
  (annotations : list Annotation) (change : ContentChange) :
  updateAndCleanAnnotationsForContentChange annotations change
  = transformAll annotations change.
Proof.
  unfold updateAndCleanAnnotationsForContentChange, transformAll.
  now rewrite push_loop_flat_map.
Qed.

Lemma fold_left_ext_fun {A B : Type} (f g : A -> B -> A) (l : list B) (a : A) :
  (forall x y, f x y = g x y) -> fold_left f l a = fold_left g l a.
Proof.
  intros E. revert a. induction l as [|y l IH]; intros a; cbn; [reflexivity|].
  now rewrite E, IH.
Qed.

Lemma byStartLineDescending_key (a b : ContentChange) :
  byStartLineDescending a b
  = - ContentChange.startLine a - - ContentChange.startLine b.
Proof. unfold byStartLineDescending. lia. Qed.

Lemma commit_sort_descending (changes : list ContentChange) :
  sortedByStartLineDescending changes
    (Array_sort byStartLineDescending changes).
Proof.
  apply Array_sort_stablySorted. exact byStartLineDescending_key.
Qed.

Lemma updateAndCleanAnnotationsForCommit_fold
  (annotations : list Annotation) (changes : list ContentChange) :
  updateAndCleanAnnotationsForCommit annotations changes
  = foldRangeTransform annotations (Array_sort byStartLineDescending changes).
Proof.
  unfold updateAndCleanAnnotationsForCommit, foldRangeTransform.
  apply fold_left_ext_fun.
  apply updateAndCleanAnnotationsForContentChange_transformAll.
Qed.

(** C2.  The batch applier is the fold of the range transform over the whole
    annotation list, once per edit, along the edits sorted by [startLine] in
    descending order.  The sorted list exists, it is the one the code
    computes, and it is the only list that is sorted in that way. *)
Theorem batch_applier_is_sorted_fold
  (annotations : list Annotation) (edits : list ContentChange) :
  sortedByStartLineDescending edits (Array_sort byStartLineDescending edits)
  /\ forall sorted,
       sortedByStartLineDescending edits sorted ->
       Permutation edits sorted
       /\ StronglySorted
            (fun a b => ContentChange.startLine a >= ContentChange.startLine b)
            sorted
       /\ updateAndCleanAnnotationsForCommit annotations edits
          = foldRangeTransform annotations sorted.
Proof.
  split; [apply commit_sort_descending|].
  intros sorted Hs. split; [|split].
  - apply (stablySortedBy_perm byStartLineDescending _ _ _
             byStartLineDescending_key Hs).
  - destruct Hs as [Hs _].
    eapply StronglySorted_ind with (l := sorted); [constructor| |exact Hs].
    intros a l Hl IH Ha. constructor; [exact IH|].
    eapply Forall_impl; [|exact Ha]. cbn. intros; lia.
  - rewrite (stablySortedBy_unique _ _ _ _ Hs (commit_sort_descending edits)).
    apply updateAndCleanAnnotationsForCommit_fold.
Qed.

Lemma batch_applier_is_sorted_fold_witness :
  updateAndCleanAnnotationsForCommit
    [sampleAnnotation 8 10] [sampleEdit 5 5 3 0; sampleEdit 10 10 0 0]
  = foldRangeTransform
      [sampleAnnotation 8 10] [sampleEdit 10 10 0 0; sampleEdit 5 5 3 0].
Proof.
  apply (batch_applier_is_sorted_fold
           [sampleAnnotation 8 10] [sampleEdit 5 5 3 0; sampleEdit 10 10 0 0]).
  split.
  - repeat constructor; cbn; lia.
  - intros k. cbn [filter sampleEdit ContentChange.startLine Z.opp].
    destruct (Z.eqb_spec (-10) k), (Z.eqb_spec (-5) k);
      try reflexivity; lia.
Defined.

(** Edits of equal [startLine] keep the order of the commit, and that order
    matters: the sort has to be stable. *)
Example batch_tie_order_matters :
  foldRangeTransform [sampleAnnotation 6 8]
    [sampleEdit 5 5 1 0; sampleEdit 5 6 0 0]
  = [sampleAnnotation 7 9]
  /\ foldRangeTransform [sampleAnnotation 6 8]
       [sampleEdit 5 6 0 0; sampleEdit 5 5 1 0]
     = [sampleAnnotation 8 9]
  /\ updateAndCleanAnnotationsForCommit [sampleAnnotation 6 8]
       [sampleEdit 5 5 1 0; sampleEdit 5 6 0 0]
     = [sampleAnnotation 7 9].
Proof. repeat split. Qed.

(** The scenarios of the test suite. *)
Example batch_reverse_order_scenario :
  updateAndCleanAnnotationsForCommit
    [sampleAnnotation 8 10] [sampleEdit 5 5 3 0; sampleEdit 10 10 0 0]
  = [sampleAnnotation 11 12].
Proof. reflexivity. Qed.

Example batch_net_zero_scenario :
  updateAndCleanAnnotationsForCommit
    [sampleAnnotation 10 12] [sampleEdit 5 5 2 0; sampleEdit 7 8 0 2]
  = [sampleAnnotation 10 12].
Proof. reflexivity. Qed.

(** C5.  Ascending order is not equivalent to the descending order of the
    batch applier: for the annotation [8..10] and the two edits "insert three
    lines at line 5" and "replace within line 10", the shift of the first
    edit moves the annotation past the line the second edit names, and the
    two orders return different lists. *)
Theorem ascending_order_differs :
  exists (annotations : list Annotation) (e1 e2 : ContentChange),
    ContentChange.startLine e1 < ContentChange.startLine e2
    /\ delta e1 <> 0
    /\ applyBatchAscending annotations [e1; e2]
       = foldRangeTransform annotations [e1; e2]
    /\ updateAndCleanAnnotationsForCommit annotations [e1; e2]
       = foldRangeTransform annotations [e2; e1]
    /\ applyBatchAscending annotations [e1; e2] = [sampleAnnotation 11 13]
    /\ updateAndCleanAnnotationsForCommit annotations [e1; e2]
       = [sampleAnnotation 11 12]
    /\ applyBatchAscending annotations [e1; e2]
       <> updateAndCleanAnnotationsForCommit annotations [e1; e2].
Proof.
  exists [sampleAnnotation 8 10], (sampleEdit 5 5 3 0), (sampleEdit 10 10 0 0).
  repeat split; try reflexivity; cbn; try lia.
  intros E. discriminate E.
Qed.

(** ** The range merger *)

Lemma splitLast_snoc {A : Type} (front : list A) (x : A) :
  splitLast (front ++ [x]) = Some (front, x).
Proof.
  induction front as [|y front IH]; cbn; [reflexivity|]. now rewrite IH.
Qed.

Lemma later_of_comparison (current last : string) :
  (if String_gt current last then current else last)
  = laterTimestamp last current.
Proof.
  unfold String_gt, String.ltb, laterTimestamp.
  now destruct (String.compare last current).
Qed.

(** One iteration of the loop, on the array [front ++ [last]]. *)
Lemma squashStep_snoc (front : list Annotation) (last current : Annotation) :
  squashStep (front ++ [last]) current
  = if startLine current <=? endLine last + 1
    then front ++ [mergeInto last current]
    else front ++ [last; current].
Proof.
  unfold squashStep. rewrite splitLast_snoc.
  destruct (startLine current <=? endLine last + 1).
  - unfold mergeInto. now rewrite later_of_comparison.
  - now rewrite <- app_assoc.
Qed.

(** The loop is the scan with a current range; the ranges in front of the
    current one are closed. *)
Lemma squash_loop_mergeScan (rest front : list Annotation)
  (current : Annotation) :
  fold_left squashStep rest (front ++ [current])
  = front ++ mergeScan current rest.
Proof.
  revert front current.
  induction rest as [|next rest IH]; intros front current; [reflexivity|].
  cbn [fold_left mergeScan]. rewrite squashStep_snoc.
  destruct (startLine next <=? endLine current + 1).
  - apply IH.
  - change (front ++ [current; next]) with (front ++ [current] ++ [next]).
    rewrite app_assoc, IH, <- app_assoc. reflexivity.
Qed.

Lemma squashOverlappingAnnotations_mergeSorted (annotations : list Annotation) :
  squashOverlappingAnnotations annotations
  = mergeSorted (Array_sort byStartLineAscending annotations).
Proof.
  unfold squashOverlappingAnnotations.
  destruct annotations as [|a [|b l]]; [reflexivity|reflexivity|].
  cbn [List.length Nat.leb]. unfold mergeSorted.
  destruct (Array_sort byStartLineAscending (a :: b :: l)) as [|first rest];
    [reflexivity|].
  apply (squash_loop_mergeScan rest [] first).
Qed.

Lemma byStartLineAscending_key (a b : Annotation) :
  byStartLineAscending a b = startLine a - startLine b.
Proof. reflexivity. Qed.

Lemma merger_sort_ascending (annotations : list Annotation) :
  sortedByStartLineAscending annotations
    (Array_sort byStartLineAscending annotations).
Proof.
  apply Array_sort_stablySorted. exact byStartLineAscending_key.
Qed.

(** C4.  The range merger is the interval merge of the specification: the
    annotations are sorted by [startLine] in ascending order and scanned from
    left to right; the next range is merged into the current one exactly when
    [next.startLine <= current.endLine + 1], which extends the end of the
    current range to the larger of the two ends and keeps the later time
    stamp; otherwise the current range is closed and the next one becomes
    current.  Lists of at most one element are returned unchanged. *)
Theorem range_merger_is_interval_merge (annotations : list Annotation) :
  sortedByStartLineAscending annotations
    (Array_sort byStartLineAscending annotations)
  /\ (forall sorted,
        sortedByStartLineAscending annotations sorted ->
        Permutation annotations sorted
        /\ squashOverlappingAnnotations annotations = mergeSorted sorted)
  /\ ((List.length annotations <= 1)%nat ->
      squashOverlappingAnnotations annotations = annotations).
Proof.
  split; [apply merger_sort_ascending|]. split.
  - intros sorted Hs. split.
    + apply (stablySortedBy_perm byStartLineAscending _ _ _
               byStartLineAscending_key Hs).
    + rewrite (stablySortedBy_unique _ _ _ _ Hs
                 (merger_sort_ascending annotations)).
      apply squashOverlappingAnnotations_mergeSorted.
  - intros H. unfold squashOverlappingAnnotations.
    destruct (Nat.leb_spec (List.length annotations) 1); [reflexivity|lia].
Qed.

Lemma range_merger_is_interval_merge_witness :
  squashOverlappingAnnotations
    [sampleAnnotation 6 8; sampleAnnotation 1 3; sampleAnnotation 2 4]
  = mergeSorted
      [sampleAnnotation 1 3; sampleAnnotation 2 4; sampleAnnotation 6 8]
  /\ squashOverlappingAnnotations [sampleAnnotation 1 3]
     = [sampleAnnotation 1 3].
Proof.
  split.
  - apply (range_merger_is_interval_merge
             [sampleAnnotation 6 8; sampleAnnotation 1 3; sampleAnnotation 2 4]).
    split.
    + repeat constructor; cbn; lia.
    + intros k. cbn [filter sampleAnnotation startLine].
      destruct (Z.eqb_spec 6 k), (Z.eqb_spec 1 k), (Z.eqb_spec 2 k);
        try reflexivity; lia.
  - apply (range_merger_is_interval_merge [sampleAnnotation 1 3]).
    cbn. lia.
Defined.

(** The scenarios of the test suite. *)
Example squash_overlapping_scenario :
  squashOverlappingAnnotations
    [ mkAnnotation 1 3 "2024-01-01T00:00:00.000Z" ai_generated;
      mkAnnotation 2 5 "2024-01-01T00:01:00.000Z" ai_generated ]
  = [ mkAnnotation 1 5 "2024-01-01T00:01:00.000Z" ai_generated ].
Proof. reflexivity. Qed.

Example squash_interleaved_scenario :
  map lineRange
    (squashOverlappingAnnotations
       [ sampleAnnotation 1 3; sampleAnnotation 2 4; sampleAnnotation 6 8;
         sampleAnnotation 7 9; sampleAnnotation 11 13 ])
  = [ (1, 4); (6, 9); (11, 13) ].
Proof. reflexivity. Qed.

(** *** The merger on objects returns the values of the merger on values *)

Lemma sortInsert_map {A B : Type} (f : A -> B) (cmp : B -> B -> Z) (x : A)
  (l : list A) :
  map f (sortInsert (fun a b => cmp (f a) (f b)) x l)
  = sortInsert cmp (f x) (map f l).
Proof.
  induction l as [|y l IH]; cbn; [reflexivity|].
  destruct (cmp (f x) (f y) <=? 0); cbn; [reflexivity|]. now rewrite IH.
Qed.

Lemma Array_sort_map {A B : Type} (f : A -> B) (cmp : B -> B -> Z)
  (l : list A) :
  map f (Array_sort (fun a b => cmp (f a) (f b)) l)
  = Array_sort cmp (map f l).
Proof.
  induction l as [|x l IH]; cbn; [reflexivity|].
  now rewrite sortInsert_map, IH.
Qed.

Lemma assign_same (store : InPlace.Store) (p : InPlace.Ref) (v : Annotation) :
  InPlace.assign store p v p = v.
Proof. unfold InPlace.assign. now rewrite Nat.eqb_refl. Qed.

Lemma assign_other (store : InPlace.Store) (p q : InPlace.Ref)
  (v : Annotation) :
  q <> p -> InPlace.assign store p v q = store q.
Proof.
  intros N. unfold InPlace.assign.
  destruct (Nat.eqb_spec q p); [contradiction|reflexivity].
Qed.

Lemma map_assign_other (store : InPlace.Store) (p : InPlace.Ref)
  (v : Annotation) (l : list InPlace.Ref) :
  ~ In p l -> map (InPlace.assign store p v) l = map store l.
Proof.
  intros N. apply map_ext_in. intros q Hq. apply assign_other.
  intros ->. contradiction.
Qed.

(** The loop on objects, from the array [front ++ [last]] over distinct
    objects: the values it leaves are those of the loop on values. *)
Lemma inplace_loop_values (rest front : list InPlace.Ref)
  (last : InPlace.Ref) (store : InPlace.Store) :
  NoDup (front ++ last :: rest) ->
  let (store', result) :=
    fold_left InPlace.squashStep rest (store, front ++ [last]) in
  map store' result
  = fold_left squashStep (map store rest) (map store (front ++ [last])).
Proof.
  revert front last store.
  induction rest as [|current rest IH]; intros front last store D;
    [reflexivity|].
  cbn [fold_left map]. unfold InPlace.squashStep at 2.
  rewrite splitLast_snoc, map_app. cbn [map]. rewrite squashStep_snoc.
  assert (Dl : ~ In last front /\ ~ In last rest /\ current <> last).
  { apply NoDup_remove_2 in D. rewrite in_app_iff in D. cbn in D.
    repeat split; intros H; apply D; auto. }
  destruct Dl as (Dfront & Drest & Dcur).
  destruct (startLine (store current) <=? endLine (store last) + 1).
  - set (store1 := InPlace.setEndLine store last _).
    set (store2 := InPlace.setTimestamp store1 last _).
    assert (D' : NoDup (front ++ last :: rest)).
    { apply NoDup_remove_1 with (a := current).
      eapply Permutation_NoDup; [|exact D].
      rewrite <- !Permutation_middle. apply perm_swap. }
    specialize (IH front last store2 D').
    destruct (fold_left InPlace.squashStep rest (store2, front ++ [last]))
      as [store' result].
    rewrite IH. f_equal.
    + unfold store2, store1, InPlace.setTimestamp, InPlace.setEndLine.
      rewrite !map_assign_other by exact Drest. reflexivity.
    + rewrite map_app. cbn [map]. f_equal.
      * unfold store2, store1, InPlace.setTimestamp, InPlace.setEndLine.
        rewrite !map_assign_other by exact Dfront. reflexivity.
      * unfold store2, InPlace.setTimestamp. rewrite assign_same.
        unfold store1, InPlace.setEndLine.
        rewrite assign_same, (assign_other _ _ _ _ Dcur). cbn.
        unfold mergeInto. now rewrite later_of_comparison.
  - assert (D' : NoDup ((front ++ [last]) ++ current :: rest))
      by now rewrite <- app_assoc.
    specialize (IH (front ++ [last]) current store D').
    destruct (fold_left InPlace.squashStep rest
                (store, (front ++ [last]) ++ [current])) as [store' result].
    rewrite IH, !map_app, <- app_assoc. reflexivity.
Qed.

(** On an array of distinct objects, the values of the array the merger
    returns are the list the merger on values returns. *)
Lemma inplace_merger_values (store : InPlace.Store)
  (annotations : list InPlace.Ref) :
  NoDup annotations ->
  let (store', result) :=
    InPlace.squashOverlappingAnnotations store annotations in
  map store' result = squashOverlappingAnnotations (map store annotations).
Proof.
  intros D.
  unfold InPlace.squashOverlappingAnnotations, squashOverlappingAnnotations.
  rewrite length_map.
  destruct (List.length annotations <=? 1)%nat; [reflexivity|].
  rewrite <- (Array_sort_map store byStartLineAscending).
  assert (Ds : NoDup (Array_sort
                        (fun a b => byStartLineAscending (store a) (store b))
                        annotations)).
  { eapply Permutation_NoDup; [apply Array_sort_perm|exact D]. }
  destruct (Array_sort _ annotations) as [|first rest]; [reflexivity|].
  apply (inplace_loop_values rest [] first store Ds).
Qed.

(** With no edits the annotations of the snapshot itself reach the merger,
    and an object that absorbs another one is changed in the store. *)
Example inplace_merger_writes_to_argument :
  let store : InPlace.Store :=
    fun p => match p with
             | O => sampleAnnotation 1 3
             | _ => sampleAnnotation 2 5
             end in
  let (store', result) :=
    InPlace.squashOverlappingAnnotations store [0%nat; 1%nat] in
  result = [0%nat] /\ store' 0%nat = sampleAnnotation 1 5.
Proof. cbn. split; reflexivity. Qed.

(** *** What the scan returns *)

(** The two moves of the scan. *)
Lemma mergeScan_merge (current next : Annotation) (rest : list Annotation) :
  startLine next <= endLine current + 1 ->
  mergeScan current (next :: rest) = mergeScan (mergeInto current next) rest.
Proof.
  intros H. cbn.
  destruct (Z.leb_spec (startLine next) (endLine current + 1)); [reflexivity|lia].
Qed.

Lemma mergeScan_close (current next : Annotation) (rest : list Annotation) :
  endLine current + 1 < startLine next ->
  mergeScan current (next :: rest) = current :: mergeScan next rest.
Proof.
  intros H. cbn.
  destruct (Z.leb_spec (startLine next) (endLine current + 1)); [lia|reflexivity].
Qed.

Lemma mergeScan_head (current : Annotation) (rest : list Annotation) :
  exists h t, mergeScan current rest = h :: t /\ startLine h = startLine current.
Proof.
  revert current. induction rest as [|next rest IH]; intros current; cbn.
  - now exists current, [].
  - destruct (startLine next <=? endLine current + 1).
    + destruct (IH (mergeInto current next)) as (h & t & E & Hh).
      exists h, t. split; [exact E|exact Hh].
    + now exists current, (mergeScan next rest).
Qed.

Lemma mergeScan_closed (current : Annotation) (rest : list Annotation) :
  Sorted (fun a b => startLine a <= startLine b) (current :: rest) ->
  Sorted closedBefore (mergeScan current rest).
Proof.
  revert current. induction rest as [|next rest IH]; intros current S; cbn.
  - repeat constructor.
  - inversion S as [|? ? S' Hd]; subst.
    inversion Hd as [|? ? Hle]; subst.
    destruct (Z.leb_spec (startLine next) (endLine current + 1)) as [M|M].
    + apply IH. inversion S' as [|? ? S'' Hd']; subst.
      constructor; [exact S''|].
      destruct Hd' as [|y rest' Hy]; constructor. cbn. lia.
    + constructor; [now apply IH|].
      destruct (mergeScan_head next rest) as (h & t & -> & Hh).
      constructor. unfold closedBefore, separated. lia.
Qed.

Lemma mergeScan_separated_id (current : Annotation) (rest : list Annotation) :
  Sorted separated (current :: rest) ->
  mergeScan current rest = current :: rest.
Proof.
  revert current. induction rest as [|next rest IH]; intros current S;
    [reflexivity|].
  inversion S as [|? ? S' Hd]; subst. inversion Hd as [|? ? Hs]; subst.
  cbn. unfold separated in Hs.
  destruct (Z.leb_spec (startLine next) (endLine current + 1)); [lia|].
  now rewrite IH.
Qed.

Lemma mergeScan_valid (current : Annotation) (rest : list Annotation) :
  Forall validRange (current :: rest) ->
  Forall validRange (mergeScan current rest).
Proof.
  revert current. induction rest as [|next rest IH]; intros current V; cbn.
  - exact V.
  - inversion V as [|? ? Vc V']; subst. inversion V' as [|? ? Vn V'']; subst.
    destruct (startLine next <=? endLine current + 1).
    + apply IH. constructor; [|exact V''].
      unfold validRange in *. cbn. lia.
    + constructor; [exact Vc|]. now apply IH.
Qed.

Lemma Sorted_weaken {A : Type} (R1 R2 : A -> A -> Prop) (l : list A) :
  (forall a b, R1 a b -> R2 a b) -> Sorted R1 l -> Sorted R2 l.
Proof.
  intros W. induction 1 as [|x l S IH Hd]; constructor; [exact IH|].
  destruct Hd; constructor. now apply W.
Qed.

(** The merger returns a list in which each range is closed in front of the
    next one. *)
Lemma squashOverlappingAnnotations_closed (annotations : list Annotation) :
  Sorted closedBefore (squashOverlappingAnnotations annotations).
Proof.
  rewrite squashOverlappingAnnotations_mergeSorted.
  pose proof (Array_sort_sorted byStartLineAscending startLine
                byStartLineAscending_key annotations) as S.
  apply StronglySorted_Sorted in S. unfold mergeSorted.
  destruct (Array_sort byStartLineAscending annotations); [constructor|].
  now apply mergeScan_closed.
Qed.

Lemma squashOverlappingAnnotations_valid (annotations : list Annotation) :
  Forall validRange annotations ->
  Forall validRange (squashOverlappingAnnotations annotations).
Proof.
  intros V. rewrite squashOverlappingAnnotations_mergeSorted.
  assert (V' : Forall validRange (Array_sort byStartLineAscending annotations)).
  { eapply Permutation_Forall; [apply Array_sort_perm|exact V]. }
  unfold mergeSorted.
  destruct (Array_sort byStartLineAscending annotations); [constructor|].
  now apply mergeScan_valid.
Qed.

(** A list in merged form is a fixed point of the merger. *)
Lemma squashOverlappingAnnotations_fixed (annotations : list Annotation) :
  Sorted closedBefore annotations ->
  squashOverlappingAnnotations annotations = annotations.
Proof.
  intros S. rewrite squashOverlappingAnnotations_mergeSorted.
  rewrite (Array_sort_of_sorted byStartLineAscending startLine
             byStartLineAscending_key).
  - unfold mergeSorted. destruct annotations as [|a l]; [reflexivity|].
    apply mergeScan_separated_id.
    eapply Sorted_weaken; [|exact S]. now intros x y [_ H].
  - eapply Sorted_weaken; [|exact S]. now intros x y [H _].
Qed.

(** C6.  The range merger is idempotent: merging a merged list returns it
    unchanged. *)
Theorem range_merger_idempotent (X : list Annotation) :
  squashOverlappingAnnotations (squashOverlappingAnnotations X)
  = squashOverlappingAnnotations X.
Proof.
  apply squashOverlappingAnnotations_fixed.
  apply squashOverlappingAnnotations_closed.
Qed.

(** ** The annotation synthesizer *)

Lemma addAnnotationsLoop_synthesized (contentChanges : list ContentChange)
  (newAnnotations : list Annotation) (clock : Clock) :
  fst (addAnnotationsLoop contentChanges newAnnotations clock)
  = newAnnotations ++ synthesized clock contentChanges.
Proof.
  revert newAnnotations clock.
  induction contentChanges as [|change rest IH]; intros acc clock.
  - cbn. now rewrite app_nil_r.
  - cbn [addAnnotationsLoop synthesized]. unfold bind, Date_toISOString.
    rewrite IH, <- app_assoc. reflexivity.
Qed.

Lemma addAnnotationsLoop_clock (contentChanges : list ContentChange)
  (newAnnotations : list Annotation) (clock : Clock) (n : nat) :
  snd (addAnnotationsLoop contentChanges newAnnotations clock) n
  = clock (List.length contentChanges + n)%nat.
Proof.
  revert newAnnotations clock.
  induction contentChanges as [|change rest IH]; intros acc clock.
  - reflexivity.
  - cbn [addAnnotationsLoop]. unfold bind, Date_toISOString.
    rewrite IH. reflexivity.
Qed.

Lemma addAnnotationsForSignificantChanges_synthesized
  (contentChanges : list ContentChange) (clock : Clock) :
  fst (addAnnotationsForSignificantChanges contentChanges clock)
  = synthesized clock contentChanges.
Proof.
  unfold addAnnotationsForSignificantChanges.
  now rewrite addAnnotationsLoop_synthesized.
Qed.

Lemma synthesized_emitted (clock : Clock) (edits : list ContentChange) :
  Forall2 emittedFor edits (synthesized clock edits).
Proof.
  revert clock. induction edits as [|e edits IH]; intros clock; cbn.
  - constructor.
  - constructor; [now repeat split|apply IH].
Qed.

Lemma synthesized_timestamps (clock : Clock) (edits : list ContentChange) :
  map timestamp (synthesized clock edits)
  = map clock (seq 0 (List.length edits)).
Proof.
  revert clock. induction edits as [|e edits IH]; intros clock; cbn.
  - reflexivity.
  - rewrite IH, <- seq_shift, map_map. reflexivity.
Qed.

Lemma synthesized_lineRanges (clock : Clock) (edits : list ContentChange) :
  map lineRange (synthesized clock edits)
  = map (fun e => (ContentChange.startLine e,
                   ContentChange.startLine e + ContentChange.addedLines e))
      edits.
Proof.
  revert clock. induction edits as [|e edits IH]; intros clock; cbn.
  - reflexivity.
  - now rewrite IH.
Qed.

(** C8.  The synthesizer emits one annotation per edit, in the order of the
    edit list, with [startLine = edit.startLine] and
    [endLine = edit.startLine + edit.addedLines]; the output has the length of
    the edit list.  The [i]-th annotation carries the [i]-th clock reading. *)
Theorem synthesizer_one_annotation_per_edit
  (edits : list ContentChange) (clock : Clock) :
  let emitted := fst (addAnnotationsForSignificantChanges edits clock) in
  Forall2 emittedFor edits emitted
  /\ List.length emitted = List.length edits
  /\ map lineRange emitted
     = map (fun e => (ContentChange.startLine e,
                      ContentChange.startLine e + ContentChange.addedLines e))
         edits
  /\ map timestamp emitted = map clock (seq 0 (List.length edits)).
Proof.
  cbv zeta. rewrite addAnnotationsForSignificantChanges_synthesized.
  split; [apply synthesized_emitted|]. split; [|split].
  - symmetry. eapply Forall2_length, synthesized_emitted.
  - apply synthesized_lineRanges.
  - apply synthesized_timestamps.
Qed.

(** ** applyChange *)

(** The snapshot [applyChange] returns, in closed form. *)
Lemma applyChangeResult_eq (clock : Clock) (snapshot : Snapshot)
  (commit : Commit) :
  applyChangeResult clock snapshot commit
  = {| Snapshot.highlightedRanges :=
         squashOverlappingAnnotations
           (updateAndCleanAnnotationsForCommit
              (Snapshot.highlightedRanges snapshot)
              (Commit.contentChanges commit)
            ++ (if Commit.isSignificant commit
                then synthesized clock (Commit.contentChanges commit)
                else []));
       Snapshot.lastUpdated := clock (readingsBeforeStamp commit);
       Snapshot.documentVersion := Commit.documentVersion commit |}.
Proof.
  unfold applyChangeResult, applyChange, readingsBeforeStamp, bind.
  destruct (Commit.isSignificant commit).
  - pose proof (addAnnotationsForSignificantChanges_synthesized
                  (Commit.contentChanges commit) clock) as E1.
    pose proof (addAnnotationsLoop_clock
                  (Commit.contentChanges commit) [] clock 0) as E2.
    unfold addAnnotationsForSignificantChanges in *.
    destruct (addAnnotationsLoop (Commit.contentChanges commit) [] clock)
      as [newAnnotations clock'].
    cbn in E1, E2 |- *. rewrite E1, E2, Nat.add_0_r. reflexivity.
  - cbn. now rewrite app_nil_r.
Qed.

(** *** Ranges stay well formed *)

Lemma transform_valid (a : Annotation) (e : ContentChange) :
  validRange a -> Forall validRange (processAnnotationForChangeAndClean a e).
Proof.
  intros V.
  destruct (Z.lt_ge_cases (endLine a) (ContentChange.startLine e)) as [B|B].
  - rewrite transform_before by assumption. now constructor.
  - destruct (Z.lt_ge_cases (ContentChange.endLine e) (startLine a)) as [C|C].
    + rewrite transform_after by lia.
      constructor; [|constructor]. unfold validRange in *; cbn. lia.
    + rewrite transform_overlap by lia.
      apply Forall_app. split.
      * destruct (Z.ltb_spec (startLine a) (ContentChange.startLine e));
          constructor; [|constructor]. unfold validRange; cbn. lia.
      * destruct (Z.ltb_spec (ContentChange.endLine e) (endLine a));
          constructor; [|constructor]. unfold validRange; cbn. lia.
Qed.

Lemma transformAll_valid (annotations : list Annotation) (e : ContentChange) :
  Forall validRange annotations -> Forall validRange (transformAll annotations e).
Proof.
  unfold transformAll. induction 1 as [|a l Va Vl IH]; cbn; [constructor|].
  apply Forall_app. split; [now apply transform_valid|exact IH].
Qed.

Lemma foldRangeTransform_valid (edits : list ContentChange)
  (annotations : list Annotation) :
  Forall validRange annotations ->
  Forall validRange (foldRangeTransform annotations edits).
Proof.
  unfold foldRangeTransform. revert annotations.
  induction edits as [|e edits IH]; intros annotations V; cbn; [exact V|].
  apply IH. now apply transformAll_valid.
Qed.

Lemma updateAndCleanAnnotationsForCommit_valid
  (annotations : list Annotation) (changes : list ContentChange) :
  Forall validRange annotations ->
  Forall validRange (updateAndCleanAnnotationsForCommit annotations changes).
Proof.
  intros V. rewrite updateAndCleanAnnotationsForCommit_fold.
  now apply foldRangeTransform_valid.
Qed.

Lemma synthesized_valid (clock : Clock) (edits : list ContentChange) :
  Forall wellFormedEdit edits -> Forall validRange (synthesized clock edits).
Proof.
  intros W. revert clock.
  induction W as [|e edits We W IH]; intros clock; cbn; constructor.
  - destruct We. unfold validRange; cbn. lia.
  - apply IH.
Qed.

(** *** Merged lists satisfy the invariant *)

Lemma separated_all_later (l : list Annotation) :
  Forall validRange l -> Sorted separated l -> StronglySorted separated l.
Proof.
  induction 1 as [|x l Vx Vl IH]; intros S; [constructor|].
  inversion S as [|? ? S' Hd]; subst.
  specialize (IH S'). constructor; [exact IH|].
  destruct Hd as [|y l Hxy]; [constructor|].
  inversion IH as [|? ? _ Hy]; subst.
  inversion Vl as [|? ? Vy _]; subst.
  constructor; [exact Hxy|].
  eapply Forall_impl; [|exact Hy].
  unfold separated, validRange in *. intros z Hz. lia.
Qed.

Lemma StronglySorted_nth_error {A : Type} (R : A -> A -> Prop) (l : list A) :
  StronglySorted R l ->
  forall (i j : nat) (a b : A),
    (i < j)%nat -> nth_error l i = Some a -> nth_error l j = Some b -> R a b.
Proof.
  induction 1 as [|x l S IH Hx]; intros i j a b Hij Hi Hj.
  - destruct i; discriminate Hi.
  - destruct j as [|j]; [lia|]. cbn in Hj. destruct i as [|i]; cbn in Hi.
    + injection Hi as <-. rewrite Forall_forall in Hx.
      apply Hx. eapply nth_error_In, Hj.
    + apply (IH i j); [lia|assumption|assumption].
Qed.

Lemma mergedForm_snapshotInvariant (l : list Annotation) :
  mergedForm l -> snapshotInvariant l.
Proof.
  intros [V S]. split; [exact V|].
  pose proof (StronglySorted_nth_error _ _ (separated_all_later l V S)) as P.
  rewrite Forall_forall in V.
  intros i j a b Hij Hi Hj.
  pose proof (V a (nth_error_In _ _ Hi)) as Va.
  pose proof (V b (nth_error_In _ _ Hj)) as Vb.
  unfold overlap, adjacent, validRange, separated in *.
  destruct (Nat.lt_total i j) as [L|[E|L]]; [|contradiction|].
  - specialize (P i j a b L Hi Hj). cbn in P. lia.
  - specialize (P j i b a L Hj Hi). cbn in P. lia.
Qed.

Lemma squashOverlappingAnnotations_mergedForm (annotations : list Annotation) :
  Forall validRange annotations ->
  mergedForm (squashOverlappingAnnotations annotations).
Proof.
  intros V. split; [now apply squashOverlappingAnnotations_valid|].
  eapply Sorted_weaken; [|apply squashOverlappingAnnotations_closed].
  now intros x y [_ H].
Qed.

(** C3.  From a snapshot whose annotations are not inverted and a commit of
    well-formed edits, [applyChange] returns a snapshot that satisfies the
    snapshot invariant: every annotation has [startLine <= endLine], and no
    two distinct annotations overlap or are adjacent. *)
Theorem applyChange_snapshot_invariant (clock : Clock) (snapshot : Snapshot)
  (commit : Commit) :
  Forall validRange (Snapshot.highlightedRanges snapshot) ->
  Forall wellFormedEdit (Commit.contentChanges commit) ->
  snapshotInvariant
    (Snapshot.highlightedRanges (applyChangeResult clock snapshot commit)).
Proof.
  intros V W. rewrite applyChangeResult_eq. cbn [Snapshot.highlightedRanges].
  apply mergedForm_snapshotInvariant, squashOverlappingAnnotations_mergedForm.
  apply Forall_app. split.
  - now apply updateAndCleanAnnotationsForCommit_valid.
  - destruct (Commit.isSignificant commit); [|constructor].
    now apply synthesized_valid.
Qed.

Lemma applyChange_snapshot_invariant_witness :
  snapshotInvariant
    (Snapshot.highlightedRanges
       (applyChangeResult morningClock
          (sampleSnapshot [sampleAnnotation 2 4])
          {| Commit.documentVersion := 2;
             Commit.isSignificant := true;
             Commit.contentChanges :=
               [sampleEdit 3 3 0 0; sampleEdit 6 6 2 0] |})).
Proof.
  apply (applyChange_snapshot_invariant morningClock
           (sampleSnapshot [sampleAnnotation 2 4])).
  - repeat constructor. unfold validRange; cbn. lia.
  - repeat constructor; cbn; lia.
Defined.

Example applyChange_significant_scenario :
  map lineRange
    (Snapshot.highlightedRanges
       (applyChangeResult morningClock
          (sampleSnapshot [sampleAnnotation 2 4])
          {| Commit.documentVersion := 2;
             Commit.isSignificant := true;
             Commit.contentChanges :=
               [sampleEdit 3 3 0 0; sampleEdit 6 6 2 0] |}))
  = [(2, 4); (6, 8)].
Proof. reflexivity. Qed.

(** *** A commit without edits *)

Lemma empty_commit_returns_merged (clock : Clock) (snapshot : Snapshot)
  (commit : Commit) :
  Commit.contentChanges commit = [] ->
  Snapshot.highlightedRanges (applyChangeResult clock snapshot commit)
  = squashOverlappingAnnotations (Snapshot.highlightedRanges snapshot).
Proof.
  intros E. rewrite applyChangeResult_eq. cbn [Snapshot.highlightedRanges].
  rewrite E. cbn. destruct (Commit.isSignificant commit); cbn;
    now rewrite app_nil_r.
Qed.

(** For a commit without edits the claim of an identity transform fails on a
    snapshot whose annotations are not in ascending order: the merger sorts
    them. *)
Lemma empty_commit_reorders_annotations :
  Snapshot.highlightedRanges
    (applyChangeResult morningClock
       (sampleSnapshot [sampleAnnotation 5 7; sampleAnnotation 1 2])
       (emptyCommit 2))
  <> Snapshot.highlightedRanges
       (sampleSnapshot [sampleAnnotation 5 7; sampleAnnotation 1 2]).
Proof. cbn. intros E. discriminate E. Qed.

Example empty_commit_merges_annotations :
  Snapshot.highlightedRanges
    (applyChangeResult morningClock
       (sampleSnapshot [sampleAnnotation 1 3; sampleAnnotation 2 5])
       (emptyCommit 2))
  = [sampleAnnotation 1 5].
Proof. reflexivity. Qed.

(** Every snapshot [applyChange] returns lists its annotations in merged
    order, whatever the snapshot and the commit it was called with. *)
Lemma applyChange_result_closed (clock : Clock) (snapshot : Snapshot)
  (commit : Commit) :
  Sorted closedBefore
    (Snapshot.highlightedRanges (applyChangeResult clock snapshot commit)).
Proof.
  rewrite applyChangeResult_eq. cbn [Snapshot.highlightedRanges].
  apply squashOverlappingAnnotations_closed.
Qed.

(** C7, amended.  A commit whose edit list is empty and whose significance
    flag is false returns the merged annotation list of the snapshot.  That
    list equals the annotation list of the snapshot exactly when the
    snapshot lists its annotations in merged order: each one starts no
    earlier than the one in front of it, and more than one line after its
    end.  The list returned is in merged order itself, and so is the list of
    every snapshot [applyChange] returns, for any snapshot and any commit:
    applied to a snapshot that [applyChange] produced, the empty commit
    returns its annotation list unchanged. *)
Theorem applyChange_empty_commit (clock : Clock) (snapshot : Snapshot)
  (commit : Commit) :
  Commit.contentChanges commit = [] ->
  Commit.isSignificant commit = false ->
  Snapshot.highlightedRanges (applyChangeResult clock snapshot commit)
  = squashOverlappingAnnotations (Snapshot.highlightedRanges snapshot)
  /\ (Snapshot.highlightedRanges (applyChangeResult clock snapshot commit)
      = Snapshot.highlightedRanges snapshot
      <-> Sorted closedBefore (Snapshot.highlightedRanges snapshot))
  /\ Sorted closedBefore
       (Snapshot.highlightedRanges (applyChangeResult clock snapshot commit))
  /\ (forall (clock0 : Clock) (snapshot0 : Snapshot) (commit0 : Commit),
        Sorted closedBefore
          (Snapshot.highlightedRanges
             (applyChangeResult clock0 snapshot0 commit0))
        /\ Snapshot.highlightedRanges
             (applyChangeResult clock
                (applyChangeResult clock0 snapshot0 commit0) commit)
           = Snapshot.highlightedRanges
               (applyChangeResult clock0 snapshot0 commit0)).
Proof.
  intros E _. split; [|split; [|split]].
  - apply (empty_commit_returns_merged clock snapshot commit E).
  - rewrite (empty_commit_returns_merged clock snapshot commit E). split.
    + intros <-. apply squashOverlappingAnnotations_closed.
    + apply squashOverlappingAnnotations_fixed.
  - apply applyChange_result_closed.
  - intros clock0 snapshot0 commit0.
    split; [apply applyChange_result_closed|].
    rewrite (empty_commit_returns_merged clock _ commit E).
    apply squashOverlappingAnnotations_fixed, applyChange_result_closed.
Qed.

Lemma applyChange_empty_commit_witness :
  Snapshot.highlightedRanges
    (applyChangeResult morningClock
       (sampleSnapshot [sampleAnnotation 1 2; sampleAnnotation 5 7])
       (emptyCommit 2))
  = [sampleAnnotation 1 2; sampleAnnotation 5 7].
Proof.
  destruct (applyChange_empty_commit morningClock
              (sampleSnapshot [sampleAnnotation 1 2; sampleAnnotation 5 7])
              (emptyCommit 2) eq_refl eq_refl) as (_ & H & _).
  apply H. repeat constructor; cbn; lia.
Defined.

(** *** What depends on the clock *)

Lemma sameRange_refl (l : list Annotation) : Forall2 sameRange l l.
Proof. induction l; constructor; [now split|assumption]. Qed.

Lemma sameRange_lineRanges (l1 l2 : list Annotation) :
  Forall2 sameRange l1 l2 -> map lineRange l1 = map lineRange l2.
Proof.
  induction 1 as [|a b l1 l2 [Hs He] _ IH]; cbn; [reflexivity|].
  unfold lineRange at 1 3. now rewrite Hs, He, IH.
Qed.

Lemma sortInsert_sameRange (x y : Annotation) (l1 l2 : list Annotation) :
  sameRange x y -> Forall2 sameRange l1 l2 ->
  Forall2 sameRange (sortInsert byStartLineAscending x l1)
    (sortInsert byStartLineAscending y l2).
Proof.
  intros Hxy. induction 1 as [|a b l1 l2 Hab Hl IH]; cbn.
  - constructor; [exact Hxy|constructor].
  - unfold byStartLineAscending.
    pose proof Hxy as [Hx _]. pose proof Hab as [Ha _].
    rewrite Hx, Ha.
    destruct (startLine y - startLine b <=? 0).
    + constructor; [exact Hxy|]. constructor; [exact Hab|exact Hl].
    + constructor; [exact Hab|exact IH].
Qed.

Lemma Array_sort_sameRange (l1 l2 : list Annotation) :
  Forall2 sameRange l1 l2 ->
  Forall2 sameRange (Array_sort byStartLineAscending l1)
    (Array_sort byStartLineAscending l2).
Proof.
  induction 1 as [|a b l1 l2 Hab Hl IH]; cbn; [constructor|].
  now apply sortInsert_sameRange.
Qed.

Lemma mergeScan_sameRange (r1 r2 : list Annotation) :
  Forall2 sameRange r1 r2 ->
  forall c1 c2, sameRange c1 c2 ->
  Forall2 sameRange (mergeScan c1 r1) (mergeScan c2 r2).
Proof.
  induction 1 as [|a b r1 r2 Hab Hr IH]; intros c1 c2 Hc; cbn.
  - constructor; [exact Hc|constructor].
  - destruct Hc as [Hcs Hce]. destruct Hab as [Has Hae].
    rewrite Has, Hce.
    destruct (startLine b <=? endLine c2 + 1).
    + apply IH. split; cbn; [exact Hcs|]. now rewrite Hce, Hae.
    + constructor; [now split|]. apply IH. now split.
Qed.

Lemma squashOverlappingAnnotations_sameRange (l1 l2 : list Annotation) :
  Forall2 sameRange l1 l2 ->
  Forall2 sameRange (squashOverlappingAnnotations l1)
    (squashOverlappingAnnotations l2).
Proof.
  intros H. rewrite !squashOverlappingAnnotations_mergeSorted.
  apply Array_sort_sameRange in H. unfold mergeSorted.
  destruct H as [|a b s1 s2 Hab Hs]; [constructor|].
  now apply mergeScan_sameRange.
Qed.

Lemma synthesized_sameRange (clock1 clock2 : Clock)
  (edits : list ContentChange) :
  Forall2 sameRange (synthesized clock1 edits) (synthesized clock2 edits).
Proof.
  revert clock1 clock2.
  induction edits as [|e edits IH]; intros clock1 clock2; cbn;
    constructor; [now split|apply IH].
Qed.

Lemma synthesized_same_readings (clock1 clock2 : Clock)
  (edits : list ContentChange) :
  (forall n, (n < List.length edits)%nat -> clock1 n = clock2 n) ->
  synthesized clock1 edits = synthesized clock2 edits.
Proof.
  revert clock1 clock2.
  induction edits as [|e edits IH]; intros clock1 clock2 H; cbn;
    [reflexivity|].
  rewrite (H 0%nat) by (cbn; lia). f_equal.
  apply IH. intros n Hn. apply H. cbn. lia.
Qed.

(** The claim of a pure function fails on the clock: two invocations on the
    same snapshot and commit, one in the morning and one in the evening,
    return different snapshots. *)
Lemma applyChange_depends_on_clock :
  applyChangeResult morningClock (sampleSnapshot []) (emptyCommit 2)
  <> applyChangeResult eveningClock (sampleSnapshot []) (emptyCommit 2).
Proof. cbn. intros E. discriminate E. Qed.

(** C9, amended.  [applyChange] is a deterministic function of its inputs
    and of the clock readings it makes.  Two invocations on equal inputs
    return snapshots with the same document version and the same line
    ranges, in the same order; when the commit is not significant the
    annotation lists are equal; and when the two invocations read the same
    values from the clock the snapshots are equal.  The clock is read once
    per edit of a significant commit, and once more for [lastUpdated]. *)
Theorem applyChange_deterministic_up_to_clock (clock1 clock2 : Clock)
  (snapshot : Snapshot) (commit : Commit) :
  let result1 := applyChangeResult clock1 snapshot commit in
  let result2 := applyChangeResult clock2 snapshot commit in
  Snapshot.documentVersion result1 = Snapshot.documentVersion result2
  /\ map lineRange (Snapshot.highlightedRanges result1)
     = map lineRange (Snapshot.highlightedRanges result2)
  /\ (Commit.isSignificant commit = false ->
      Snapshot.highlightedRanges result1 = Snapshot.highlightedRanges result2)
  /\ ((forall n, (n <= readingsBeforeStamp commit)%nat -> clock1 n = clock2 n) ->
      result1 = result2).
Proof.
  cbv zeta. rewrite !applyChangeResult_eq. cbn [Snapshot.documentVersion
    Snapshot.highlightedRanges]. split; [reflexivity|]. split; [|split].
  - apply sameRange_lineRanges, squashOverlappingAnnotations_sameRange.
    apply Forall2_app; [apply sameRange_refl|].
    destruct (Commit.isSignificant commit); [|constructor].
    apply synthesized_sameRange.
  - intros ->. reflexivity.
  - intros H. rewrite (H (readingsBeforeStamp commit)) by lia.
    f_equal. f_equal. f_equal. unfold readingsBeforeStamp in H.
    destruct (Commit.isSignificant commit); [|reflexivity].
    apply synthesized_same_readings. intros n Hn. apply H. lia.
Qed.

Lemma applyChange_deterministic_up_to_clock_witness :
  applyChangeResult morningClock
    (sampleSnapshot [sampleAnnotation 2 4])
    {| Commit.documentVersion := 2;
       Commit.isSignificant := true;
       Commit.contentChanges := [sampleEdit 6 6 2 0] |}
  = applyChangeResult
      (fun n => if (n <=? 1)%nat then morningClock n else eveningClock n)
      (sampleSnapshot [sampleAnnotation 2 4])
      {| Commit.documentVersion := 2;
         Commit.isSignificant := true;
         Commit.contentChanges := [sampleEdit 6 6 2 0] |}.
Proof.
  apply (applyChange_deterministic_up_to_clock morningClock
           (fun n => if (n <=? 1)%nat then morningClock n else eveningClock n)).
  intros n Hn. cbn in Hn.
  destruct (Nat.leb_spec n 1); [reflexivity|lia].
Defined.

(** * Further properties of the annotation system *)

(** ** Which lines stay highlighted *)

Lemma covered_nil (l : Z) : ~ covered [] l.
Proof. intros (a & [] & _). Qed.

Lemma covered_cons (a : Annotation) (annotations : list Annotation) (l : Z) :
  covered (a :: annotations) l <-> covers a l \/ covered annotations l.
Proof.
  unfold covered. split.
  - intros (b & [<-|Hb] & Hc); [now left|right; now exists b].
  - intros [Hc|(b & Hb & Hc)]; [exists a|exists b]; cbn; auto.
Qed.

Lemma covered_app (l1 l2 : list Annotation) (l : Z) :
  covered (l1 ++ l2) l <-> covered l1 l \/ covered l2 l.
Proof.
  unfold covered. split.
  - intros (a & Ha & Hc). apply in_app_or in Ha.
    destruct Ha; [left|right]; now exists a.
  - intros [(a & Ha & Hc)|(a & Ha & Hc)]; exists a;
      (split; [apply in_or_app; auto|exact Hc]).
Qed.

Lemma covered_single (a : Annotation) (l : Z) : covered [a] l <-> covers a l.
Proof.
  rewrite covered_cons. split; [intros [H|H]; [exact H|]|now left].
  now apply covered_nil in H.
Qed.

Lemma covered_perm (l1 l2 : list Annotation) (l : Z) :
  Permutation l1 l2 -> covered l1 l <-> covered l2 l.
Proof.
  intros P. unfold covered. split; intros (a & Ha & Hc); exists a;
    (split; [|exact Hc]).
  - eapply Permutation_in; eassumption.
  - eapply Permutation_in; [symmetry|]; eassumption.
Qed.

Lemma lineAfterEdit_Some (e : ContentChange) (l m : Z) :
  lineAfterEdit e l = Some m <->
  (l < ContentChange.startLine e /\ m = l)
  \/ (ContentChange.startLine e <= l /\ ContentChange.endLine e < l
      /\ m = l + delta e).
Proof.
  unfold lineAfterEdit.
  destruct (Z.ltb_spec l (ContentChange.startLine e));
    [|destruct (Z.ltb_spec (ContentChange.endLine e) l)];
    split; try (intros [= <-]); try (intros [[? ->]|(? & ? & ->)]);
    try reflexivity; try lia; try discriminate.
Qed.

Lemma transform_covered (a : Annotation) (e : ContentChange) (m : Z) :
  ContentChange.startLine e <= ContentChange.endLine e ->
  covered (processAnnotationForChangeAndClean a e) m
  <-> exists l, covers a l /\ lineAfterEdit e l = Some m.
Proof.
  intros He.
  destruct (Z.lt_ge_cases (endLine a) (ContentChange.startLine e)) as [B|B].
  - rewrite transform_before by assumption. rewrite covered_single.
    split.
    + intros [H1 H2]. exists m. split; [now split|].
      apply lineAfterEdit_Some. left. lia.
    + intros (l & [H1 H2] & H). apply lineAfterEdit_Some in H.
      unfold covers. lia.
  - destruct (Z.lt_ge_cases (ContentChange.endLine e) (startLine a)) as [C|C].
    + rewrite transform_after by lia. rewrite covered_single.
      unfold covers, shifted; cbn. split.
      * intros [H1 H2]. exists (m - delta e). split; [lia|].
        apply lineAfterEdit_Some. right. lia.
      * intros (l & [H1 H2] & H). apply lineAfterEdit_Some in H. lia.
    + rewrite transform_overlap by lia. rewrite covered_app. split.
      * intros [H|H].
        -- destruct (Z.ltb_spec (startLine a) (ContentChange.startLine e));
             [|now apply covered_nil in H].
           apply covered_single in H. destruct H as [H1 H2]. cbn in H1, H2.
           exists m. split; [unfold covers; lia|].
           apply lineAfterEdit_Some. left. lia.
        -- destruct (Z.ltb_spec (ContentChange.endLine e) (endLine a));
             [|now apply covered_nil in H].
           apply covered_single in H. destruct H as [H1 H2]. cbn in H1, H2.
           exists (m - delta e). split; [unfold covers; lia|].
           apply lineAfterEdit_Some. right. lia.
      * intros (l & [H1 H2] & H). apply lineAfterEdit_Some in H.
        destruct H as [[Hl ->]|(Hs & Hl & ->)].
        -- left.
           destruct (Z.ltb_spec (startLine a) (ContentChange.startLine e));
             [|lia].
           apply covered_single. unfold covers; cbn. lia.
        -- right.
           destruct (Z.ltb_spec (ContentChange.endLine e) (endLine a));
             [|lia].
           apply covered_single. unfold covers; cbn. lia.
Qed.

(** X1.  The lines the range transform leaves highlighted are the highlighted
    lines the edit did not replace, under their new numbers. *)
Theorem range_transform_covered (a : Annotation) (e : ContentChange) (m : Z) :
  ContentChange.startLine e <= ContentChange.endLine e ->
  covered (processAnnotationForChangeAndClean a e) m
  <-> exists l, covers a l /\ lineAfterEdit e l = Some m.
Proof. apply transform_covered. Qed.

Lemma range_transform_covered_witness :
  covered (processAnnotationForChangeAndClean
             (sampleAnnotation 3 8) (sampleEdit 5 6 0 1)) 6
  <-> exists l, covers (sampleAnnotation 3 8) l
                /\ lineAfterEdit (sampleEdit 5 6 0 1) l = Some 6.
Proof.
  apply (range_transform_covered (sampleAnnotation 3 8) (sampleEdit 5 6 0 1) 6).
  cbn. lia.
Defined.

Lemma covered_flat_map (f : Annotation -> list Annotation)
  (annotations : list Annotation) (m : Z) :
  covered (flat_map f annotations) m
  <-> exists a, In a annotations /\ covered (f a) m.
Proof.
  unfold covered. split.
  - intros (r & Hr & Hc). apply in_flat_map in Hr.
    destruct Hr as (a & Ha & Hr). exists a. split; [exact Ha|now exists r].
  - intros (a & Ha & r & Hr & Hc). exists r. split; [|exact Hc].
    apply in_flat_map. now exists a.
Qed.

Lemma transformAll_covered (annotations : list Annotation)
  (change : ContentChange) (m : Z) :
  ContentChange.startLine change <= ContentChange.endLine change ->
  covered (transformAll annotations change) m
  <-> exists l, covered annotations l /\ lineAfterEdit change l = Some m.
Proof.
  intros He. unfold transformAll. rewrite covered_flat_map. split.
  - intros (a & Ha & Hc). apply (transform_covered a change m He) in Hc.
    destruct Hc as (l & Hl & Hm). exists l. split; [now exists a|exact Hm].
  - intros (l & (a & Ha & Hl) & Hm). exists a. split; [exact Ha|].
    apply (transform_covered a change m He). now exists l.
Qed.

(** X2.  The same for a whole annotation list: after one edit, a line is
    highlighted exactly when it is the new number of a highlighted line the
    edit did not replace. *)
Theorem content_change_covered (annotations : list Annotation)
  (change : ContentChange) (m : Z) :
  ContentChange.startLine change <= ContentChange.endLine change ->
  covered (updateAndCleanAnnotationsForContentChange annotations change) m
  <-> exists l, covered annotations l /\ lineAfterEdit change l = Some m.
Proof.
  rewrite updateAndCleanAnnotationsForContentChange_transformAll.
  apply transformAll_covered.
Qed.

Lemma content_change_covered_witness :
  covered (updateAndCleanAnnotationsForContentChange
             [sampleAnnotation 3 8; sampleAnnotation 20 22]
             (sampleEdit 5 6 0 1)) 19
  <-> exists l, covered [sampleAnnotation 3 8; sampleAnnotation 20 22] l
                /\ lineAfterEdit (sampleEdit 5 6 0 1) l = Some 19.
Proof.
  apply (content_change_covered
           [sampleAnnotation 3 8; sampleAnnotation 20 22]
           (sampleEdit 5 6 0 1) 19).
  cbn. lia.
Defined.

(** X3.  No line of the replacement is highlighted by what the transform
    returns: in the new document the replacement occupies the lines from
    [change.startLine] to [change.endLine + delta], and every returned range
    ends in front of them or starts behind them. This holds for every
    annotation and every change. *)
Theorem content_change_clears_replacement (annotations : list Annotation)
  (change : ContentChange) (r : Annotation) :
  In r (updateAndCleanAnnotationsForContentChange annotations change) ->
  endLine r < ContentChange.startLine change
  \/ ContentChange.endLine change + delta change < startLine r.
Proof.
  rewrite updateAndCleanAnnotationsForContentChange_transformAll.
  unfold transformAll. intros H. apply in_flat_map in H.
  destruct H as (a & _ & H). revert H.
  destruct (Z.lt_ge_cases (endLine a) (ContentChange.startLine change)) as [B|B].
  - rewrite transform_before by assumption. intros [<-|[]]. now left.
  - destruct (Z.lt_ge_cases (ContentChange.endLine change) (startLine a))
      as [C|C].
    + rewrite transform_after by lia. intros [<-|[]]. right. cbn. lia.
    + rewrite transform_overlap by lia. intros H. apply in_app_or in H.
      destruct H as [H|H].
      * destruct (startLine a <? ContentChange.startLine change);
          [|contradiction].
        destruct H as [<-|[]]. left. cbn. lia.
      * destruct (ContentChange.endLine change <? endLine a);
          [|contradiction].
        destruct H as [<-|[]]. right. cbn. lia.
Qed.

Lemma content_change_clears_replacement_witness :
  endLine (sampleAnnotation 3 4) < ContentChange.startLine (sampleEdit 5 6 0 1)
  \/ ContentChange.endLine (sampleEdit 5 6 0 1) + delta (sampleEdit 5 6 0 1)
     < startLine (sampleAnnotation 3 4).
Proof.
  apply (content_change_clears_replacement
           [sampleAnnotation 3 8] (sampleEdit 5 6 0 1) (sampleAnnotation 3 4)).
  cbn. now left.
Defined.

(** The transform never touches time stamp or type: every annotation of the
    result carries those of an annotation of the input. *)
Lemma transform_keeps_stamp (a r : Annotation) (e : ContentChange) :
  In r (processAnnotationForChangeAndClean a e) ->
  timestamp r = timestamp a /\ type r = type a.
Proof.
  destruct (Z.lt_ge_cases (endLine a) (ContentChange.startLine e)) as [B|B].
  - rewrite transform_before by assumption. intros [<-|[]]. now split.
  - destruct (Z.lt_ge_cases (ContentChange.endLine e) (startLine a)) as [C|C].
    + rewrite transform_after by lia. intros [<-|[]]. now split.
    + rewrite transform_overlap by lia. intros H. apply in_app_or in H.
      destruct H as [H|H].
      * destruct (startLine a <? ContentChange.startLine e); [|contradiction].
        destruct H as [<-|[]]. now split.
      * destruct (ContentChange.endLine e <? endLine a); [|contradiction].
        destruct H as [<-|[]]. now split.
Qed.

Lemma foldRangeTransform_keeps_stamp (edits : list ContentChange)
  (annotations : list Annotation) (r : Annotation) :
  In r (foldRangeTransform annotations edits) ->
  exists a, In a annotations
            /\ timestamp r = timestamp a /\ type r = type a.
Proof.
  unfold foldRangeTransform. revert annotations.
  induction edits as [|e edits IH]; intros annotations H; cbn in H.
  - now exists r.
  - apply IH in H. destruct H as (b & Hb & Ht & Hk).
    unfold transformAll in Hb. apply in_flat_map in Hb.
    destruct Hb as (a & Ha & Hb). apply transform_keeps_stamp in Hb.
    exists a. split; [exact Ha|]. destruct Hb as [Hb1 Hb2].
    split; congruence.
Qed.

(** X4.  The batch applier creates no time stamp: every annotation it returns
    carries the time stamp and the type of an annotation it was given. *)
Theorem batch_keeps_timestamps (annotations : list Annotation)
  (changes : list ContentChange) (r : Annotation) :
  In r (updateAndCleanAnnotationsForCommit annotations changes) ->
  exists a, In a annotations
            /\ timestamp r = timestamp a /\ type r = type a.
Proof.
  rewrite updateAndCleanAnnotationsForCommit_fold.
  apply foldRangeTransform_keeps_stamp.
Qed.

Lemma batch_keeps_timestamps_witness :
  exists a, In a [sampleAnnotation 8 10]
            /\ timestamp (sampleAnnotation 11 12) = timestamp a
            /\ type (sampleAnnotation 11 12) = type a.
Proof.
  apply (batch_keeps_timestamps
           [sampleAnnotation 8 10] [sampleEdit 5 5 3 0; sampleEdit 10 10 0 0]
           (sampleAnnotation 11 12)).
  cbn. now left.
Defined.

(** ** The batch applier on edits that do not overlap *)

Lemma foldRangeTransform_covered (edits : list ContentChange)
  (annotations : list Annotation) (m : Z) :
  Forall (fun e => ContentChange.startLine e <= ContentChange.endLine e) edits ->
  covered (foldRangeTransform annotations edits) m
  <-> exists l, covered annotations l /\ lineAfterEdits edits l = Some m.
Proof.
  unfold foldRangeTransform. intros H. revert annotations.
  induction H as [|e edits He H IH]; intros annotations; cbn.
  - split; [intros Hc; now exists m|intros (l & Hc & [= ->]); exact Hc].
  - rewrite IH. split.
    + intros (l' & Hc & Hm). apply (transformAll_covered _ _ _ He) in Hc.
      destruct Hc as (l & Hl & Hl'). exists l. split; [exact Hl|].
      now rewrite Hl'.
    + intros (l & Hl & Hm). destruct (lineAfterEdit e l) as [l'|] eqn:E;
        [|discriminate]. exists l'. split; [|exact Hm].
      apply (transformAll_covered _ _ _ He). now exists l.
Qed.

Lemma touched_cons (e : ContentChange) (edits : list ContentChange) (l : Z) :
  touched (e :: edits) l <-> touches e l \/ touched edits l.
Proof.
  unfold touched. split.
  - intros (x & [<-|Hx] & Ht); [now left|right; now exists x].
  - intros [Ht|(x & Hx & Ht)]; [exists e|exists x]; cbn; auto.
Qed.

Lemma touched_perm (l1 l2 : list ContentChange) (l : Z) :
  Permutation l1 l2 -> touched l1 l <-> touched l2 l.
Proof.
  intros P. unfold touched. split; intros (e & He & Ht); exists e;
    (split; [|exact Ht]).
  - eapply Permutation_in; eassumption.
  - eapply Permutation_in; [symmetry|]; eassumption.
Qed.

Lemma shiftOf_perm (l1 l2 : list ContentChange) (l : Z) :
  Permutation l1 l2 -> shiftOf l1 l = shiftOf l2 l.
Proof. induction 1; cbn; lia. Qed.

Lemma shiftOf_above (edits : list ContentChange) (l p : Z) :
  Forall (fun e => ContentChange.endLine e < l) edits ->
  Forall (fun e => ContentChange.endLine e < p) edits ->
  shiftOf edits p = shiftOf edits l.
Proof.
  induction 1 as [|e edits He H IH]; intros Hp; [reflexivity|].
  inversion Hp as [|? ? Hep Hp']; subst. cbn.
  destruct (Z.ltb_spec (ContentChange.endLine e) l); [|lia].
  destruct (Z.ltb_spec (ContentChange.endLine e) p); [|lia].
  now rewrite IH.
Qed.

Lemma not_touched_above (edits : list ContentChange) (l : Z) :
  Forall (fun e => ContentChange.endLine e < l) edits -> ~ touched edits l.
Proof.
  intros H (e & He & [_ Ht]). rewrite Forall_forall in H.
  specialize (H e He). cbn in H. lia.
Qed.

(** Along edits in descending order that do not overlap, a line the edits
    replace has no new number, and any other line moves by the net line
    changes of the edits in front of it. *)
Lemma lineAfterEdits_descending (edits : list ContentChange) :
  StronglySorted editBelow edits ->
  Forall wellFormedEdit edits ->
  forall l,
    (touched edits l -> lineAfterEdits edits l = None)
    /\ (~ touched edits l ->
        lineAfterEdits edits l = Some (l + shiftOf edits l)).
Proof.
  induction 1 as [|e edits S IH Hbelow]; intros W l.
  - split; [intros (x & [] & _)|intros _; cbn; f_equal; lia].
  - inversion W as [|? ? We W']; subst. specialize (IH W').
    destruct We as [_ We2 We3 We4].
    cbn [lineAfterEdits shiftOf]. unfold lineAfterEdit.
    rewrite touched_cons. unfold touches.
    destruct (Z.ltb_spec l (ContentChange.startLine e)) as [L|L].
    + destruct (IH l) as [IH1 IH2].
      destruct (Z.ltb_spec (ContentChange.endLine e) l); [lia|].
      split.
      * intros [Ht|Ht]; [lia|now apply IH1].
      * intros N. rewrite IH2 by tauto. f_equal.
    + destruct (Z.ltb_spec (ContentChange.endLine e) l) as [U|U].
      * assert (A1 : Forall (fun x => ContentChange.endLine x < l) edits).
        { eapply Forall_impl; [|exact Hbelow].
          unfold editBelow. intros; lia. }
        assert (A2 : Forall (fun x => ContentChange.endLine x < l + delta e)
                       edits).
        { eapply Forall_impl; [|exact Hbelow].
          unfold editBelow, delta. intros; lia. }
        destruct (IH (l + delta e)) as [_ IH2].
        split.
        -- intros [Ht|Ht]; [lia|]. now apply not_touched_above in Ht.
        -- intros _. rewrite IH2 by now apply not_touched_above.
           rewrite (shiftOf_above edits l (l + delta e) A1 A2).
           f_equal. lia.
      * split; [reflexivity|]. intros N. exfalso. apply N. left. lia.
Qed.

Lemma ForallOrdPairs_perm {A : Type} (R : A -> A -> Prop) (l1 l2 : list A) :
  (forall a b, R a b -> R b a) ->
  Permutation l1 l2 -> ForallOrdPairs R l1 -> ForallOrdPairs R l2.
Proof.
  intros Sym. induction 1 as [|x l1 l2 P IH|x y l|l1 l2 l3 P1 IH1 P2 IH2];
    intros H.
  - exact H.
  - inversion H as [|? ? Hx Hl]; subst. constructor; [|now apply IH].
    eapply Permutation_Forall; eassumption.
  - inversion H as [|? ? Hy Hl]; subst.
    inversion Hl as [|? ? Hx Hl']; subst.
    inversion Hy as [|? ? Hyx Hy']; subst.
    constructor; [constructor; [now apply Sym|exact Hx]|].
    constructor; [exact Hy'|exact Hl'].
  - auto.
Qed.

Lemma disjoint_descending (sorted : list ContentChange) :
  StronglySorted
    (fun a b => - ContentChange.startLine a <= - ContentChange.startLine b)
    sorted ->
  ForallOrdPairs disjointEdits sorted ->
  Forall wellFormedEdit sorted ->
  StronglySorted editBelow sorted.
Proof.
  induction 1 as [|e sorted S IH He]; intros D W; [constructor|].
  inversion D as [|? ? De D']; subst. inversion W as [|? ? We W']; subst.
  constructor; [now apply IH|].
  rewrite Forall_forall in *. intros x Hx.
  specialize (He x Hx). specialize (De x Hx). cbn in He.
  destruct We as [_ We _ _]. destruct (W' x Hx) as [_ Wx _ _].
  unfold disjointEdits, editBelow in *. lia.
Qed.

Lemma batch_disjoint_covered (annotations : list Annotation)
  (edits : list ContentChange) (m : Z) :
  Forall wellFormedEdit edits ->
  ForallOrdPairs disjointEdits edits ->
  covered (updateAndCleanAnnotationsForCommit annotations edits) m
  <-> exists l, covered annotations l
                /\ ~ touched edits l
                /\ m = l + shiftOf edits l.
Proof.
  intros W D. rewrite updateAndCleanAnnotationsForCommit_fold.
  set (sorted := Array_sort byStartLineDescending edits).
  assert (P : Permutation edits sorted) by apply Array_sort_perm.
  assert (Ws : Forall wellFormedEdit sorted)
    by (eapply Permutation_Forall; eassumption).
  assert (S : StronglySorted editBelow sorted).
  { apply disjoint_descending; [| |exact Ws].
    - apply (Array_sort_sorted byStartLineDescending _
               byStartLineDescending_key).
    - apply (ForallOrdPairs_perm disjointEdits edits sorted); [|exact P|exact D].
      unfold disjointEdits. tauto. }
  rewrite foldRangeTransform_covered.
  2:{ eapply Forall_impl; [|exact Ws]. now intros e []. }
  pose proof (lineAfterEdits_descending sorted S Ws) as L.
  split.
  - intros (l & Hl & Hm). exists l. split; [exact Hl|].
    destruct (L l) as [L1 L2].
    assert (N : ~ touched sorted l).
    { intros T. rewrite (L1 T) in Hm. discriminate. }
    rewrite (L2 N) in Hm. injection Hm as <-.
    rewrite (touched_perm edits sorted l P), (shiftOf_perm edits sorted l P).
    now split.
  - intros (l & Hl & N & ->). exists l. split; [exact Hl|].
    rewrite (touched_perm edits sorted l P) in N.
    rewrite (shiftOf_perm edits sorted l P). now apply L.
Qed.

(** X5.  The batch applier on edits that are well formed and replace no common
    line, in any order in the commit: a line is highlighted afterwards exactly
    when it is [l + shift] for a highlighted line [l] that no edit replaces,
    where [shift] is the sum of the net line changes of the edits in front of
    [l]. The edits are read in the coordinates of the document before the
    commit, as VS Code reports them. *)
Theorem batch_disjoint_edits_covered (annotations : list Annotation)
  (edits : list ContentChange) (m : Z) :
  Forall wellFormedEdit edits ->
  ForallOrdPairs disjointEdits edits ->
  covered (updateAndCleanAnnotationsForCommit annotations edits) m
  <-> exists l, covered annotations l
                /\ ~ touched edits l
                /\ m = l + shiftOf edits l.
Proof. apply batch_disjoint_covered. Qed.

Lemma batch_disjoint_edits_covered_witness :
  covered (updateAndCleanAnnotationsForCommit
             [sampleAnnotation 8 10]
             [sampleEdit 5 5 3 0; sampleEdit 10 10 0 0]) 12
  <-> exists l, covered [sampleAnnotation 8 10] l
                /\ ~ touched [sampleEdit 5 5 3 0; sampleEdit 10 10 0 0] l
                /\ 12 = l + shiftOf [sampleEdit 5 5 3 0; sampleEdit 10 10 0 0] l.
Proof.
  apply (batch_disjoint_edits_covered
           [sampleAnnotation 8 10]
           [sampleEdit 5 5 3 0; sampleEdit 10 10 0 0] 12).
  - repeat constructor; cbn; lia.
  - constructor; [|repeat constructor].
    constructor; [|constructor]. left. cbn. lia.
Defined.

(** ** The batch applier keeps a merged list merged *)

(** What an annotation of the result of the transform is. *)
Lemma transform_in (a r : Annotation) (e : ContentChange) :
  In r (processAnnotationForChangeAndClean a e) ->
  (r = a /\ endLine a < ContentChange.startLine e)
  \/ (r = shifted a (delta e)
      /\ ContentChange.startLine e <= endLine a
      /\ ContentChange.endLine e < startLine a)
  \/ (r = beforeFragment a e
      /\ ContentChange.startLine e <= endLine a
      /\ startLine a < ContentChange.startLine e)
  \/ (r = afterFragment a e
      /\ startLine a <= ContentChange.endLine e
      /\ ContentChange.endLine e < endLine a).
Proof.
  destruct (Z.lt_ge_cases (endLine a) (ContentChange.startLine e)) as [B|B].
  - rewrite transform_before by assumption. intros [<-|[]]. now left.
  - destruct (Z.lt_ge_cases (ContentChange.endLine e) (startLine a)) as [C|C].
    + rewrite transform_after by lia. intros [<-|[]]. right. left. repeat split; lia.
    + rewrite transform_overlap by lia. intros H. apply in_app_or in H.
      destruct H as [H|H].
      * destruct (Z.ltb_spec (startLine a) (ContentChange.startLine e));
          [|contradiction].
        destruct H as [<-|[]]. right. right. left. repeat split; lia.
      * destruct (Z.ltb_spec (ContentChange.endLine e) (endLine a));
          [|contradiction].
        destruct H as [<-|[]]. right. right. right. repeat split; lia.
Qed.

Lemma transform_pair_separated (a b r s : Annotation) (e : ContentChange) :
  validRange a -> validRange b -> separated a b -> wellFormedEdit e ->
  In r (processAnnotationForChangeAndClean a e) ->
  In s (processAnnotationForChangeAndClean b e) ->
  separated r s.
Proof.
  intros Va Vb Sab [W1 W2 W3 W4] Hr Hs.
  apply transform_in in Hr. apply transform_in in Hs.
  unfold separated, validRange, shifted, beforeFragment, afterFragment, delta
    in *.
  destruct Hr as [[-> ?]|[(-> & ? & ?)|[(-> & ? & ?)|(-> & ? & ?)]]];
    destruct Hs as [[-> ?]|[(-> & ? & ?)|[(-> & ? & ?)|(-> & ? & ?)]]];
    cbn; lia.
Qed.

Lemma transform_self_separated (a : Annotation) (e : ContentChange) :
  wellFormedEdit e ->
  StronglySorted separated (processAnnotationForChangeAndClean a e).
Proof.
  intros [W1 W2 W3 W4].
  destruct (Z.lt_ge_cases (endLine a) (ContentChange.startLine e)) as [B|B].
  - rewrite transform_before by assumption. repeat constructor.
  - destruct (Z.lt_ge_cases (ContentChange.endLine e) (startLine a)) as [C|C].
    + rewrite transform_after by lia. repeat constructor.
    + rewrite transform_overlap by lia.
      destruct (startLine a <? ContentChange.startLine e),
        (ContentChange.endLine e <? endLine a); cbn [app];
        repeat constructor.
      unfold separated, beforeFragment, afterFragment, delta; cbn. lia.
Qed.

Lemma StronglySorted_app {A : Type} (R : A -> A -> Prop) (l1 l2 : list A) :
  StronglySorted R l1 -> StronglySorted R l2 ->
  (forall a b, In a l1 -> In b l2 -> R a b) ->
  StronglySorted R (l1 ++ l2).
Proof.
  induction 1 as [|x l1 S IH Hx]; intros S2 H; [exact S2|].
  cbn. constructor.
  - apply IH; [exact S2|]. intros a b Ha Hb. apply H; [now right|exact Hb].
  - apply Forall_app. split; [exact Hx|].
    apply Forall_forall. intros b Hb. apply H; [now left|exact Hb].
Qed.

Lemma transformAll_separated (annotations : list Annotation)
  (e : ContentChange) :
  wellFormedEdit e ->
  Forall validRange annotations ->
  StronglySorted separated annotations ->
  StronglySorted separated (transformAll annotations e).
Proof.
  intros W V S. unfold transformAll.
  induction S as [|a l S IH Ha]; [constructor|].
  inversion V as [|? ? Va Vl]; subst. cbn.
  apply StronglySorted_app; [now apply transform_self_separated|now apply IH|].
  intros r s Hr Hs. apply in_flat_map in Hs. destruct Hs as (b & Hb & Hs).
  rewrite Forall_forall in Ha, Vl.
  apply (transform_pair_separated a b r s e); auto.
Qed.

Lemma transformAll_mergedForm (annotations : list Annotation)
  (e : ContentChange) :
  wellFormedEdit e -> mergedForm annotations ->
  mergedForm (transformAll annotations e).
Proof.
  intros W [V S]. split; [now apply transformAll_valid|].
  apply StronglySorted_Sorted, transformAll_separated; [exact W|exact V|].
  now apply separated_all_later.
Qed.

Lemma foldRangeTransform_mergedForm (edits : list ContentChange)
  (annotations : list Annotation) :
  Forall wellFormedEdit edits -> mergedForm annotations ->
  mergedForm (foldRangeTransform annotations edits).
Proof.
  unfold foldRangeTransform. intros W. revert annotations.
  induction W as [|e edits We W IH]; intros annotations M; [exact M|].
  cbn. apply IH. now apply transformAll_mergedForm.
Qed.

Lemma batch_mergedForm (annotations : list Annotation)
  (changes : list ContentChange) :
  Forall wellFormedEdit changes -> mergedForm annotations ->
  mergedForm (updateAndCleanAnnotationsForCommit annotations changes).
Proof.
  intros W M. rewrite updateAndCleanAnnotationsForCommit_fold.
  apply foldRangeTransform_mergedForm; [|exact M].
  eapply Permutation_Forall; [apply Array_sort_perm|exact W].
Qed.

(** X6.  Well-formed edits keep a merged list merged: when no range of the
    list is inverted and each range starts more than one line after the end of
    the one in front of it, the same holds for the list the batch applier
    returns. No edit makes two ranges meet, whatever it deletes. *)
Theorem batch_keeps_merged_form (annotations : list Annotation)
  (changes : list ContentChange) :
  Forall wellFormedEdit changes -> mergedForm annotations ->
  mergedForm (updateAndCleanAnnotationsForCommit annotations changes).
Proof. apply batch_mergedForm. Qed.

Lemma batch_keeps_merged_form_witness :
  mergedForm
    (updateAndCleanAnnotationsForCommit
       [sampleAnnotation 1 2; sampleAnnotation 5 9]
       [sampleEdit 3 4 0 1; sampleEdit 7 7 2 0]).
Proof.
  apply (batch_keeps_merged_form
           [sampleAnnotation 1 2; sampleAnnotation 5 9]
           [sampleEdit 3 4 0 1; sampleEdit 7 7 2 0]).
  - repeat constructor; cbn; lia.
  - split; repeat constructor; unfold validRange, separated; cbn; lia.
Defined.

Lemma mergedForm_closed (annotations : list Annotation) :
  mergedForm annotations -> Sorted closedBefore annotations.
Proof.
  intros [V S]. induction S as [|a l S IH Hd]; [constructor|].
  inversion V as [|? ? Va Vl]; subst.
  constructor; [now apply IH|].
  destruct Hd as [|b l Hab]; constructor.
  unfold closedBefore, separated, validRange in *. lia.
Qed.

(** X7.  For a commit that is not significant, on a snapshot in merged form
    and with well-formed edits, the merger of [applyChange] has nothing to do:
    the annotations of the new snapshot are the list the batch applier
    returns, in its order. *)
Theorem applyChange_not_significant (clock : Clock) (snapshot : Snapshot)
  (commit : Commit) :
  Commit.isSignificant commit = false ->
  Forall wellFormedEdit (Commit.contentChanges commit) ->
  mergedForm (Snapshot.highlightedRanges snapshot) ->
  Snapshot.highlightedRanges (applyChangeResult clock snapshot commit)
  = updateAndCleanAnnotationsForCommit
      (Snapshot.highlightedRanges snapshot) (Commit.contentChanges commit).
Proof.
  intros Hs W M. rewrite applyChangeResult_eq, Hs, app_nil_r.
  cbn [Snapshot.highlightedRanges].
  apply squashOverlappingAnnotations_fixed, mergedForm_closed.
  now apply batch_mergedForm.
Qed.

Lemma applyChange_not_significant_witness :
  Snapshot.highlightedRanges
    (applyChangeResult morningClock
       (sampleSnapshot [sampleAnnotation 1 2; sampleAnnotation 5 9])
       {| Commit.documentVersion := 2;
          Commit.isSignificant := false;
          Commit.contentChanges := [sampleEdit 7 7 2 0] |})
  = updateAndCleanAnnotationsForCommit
      [sampleAnnotation 1 2; sampleAnnotation 5 9] [sampleEdit 7 7 2 0].
Proof.
  apply (applyChange_not_significant morningClock
           (sampleSnapshot [sampleAnnotation 1 2; sampleAnnotation 5 9])).
  - reflexivity.
  - repeat constructor; cbn; lia.
  - split; repeat constructor; unfold validRange, separated; cbn; lia.
Defined.

(** *** How many annotations an edit can add *)

Lemma transform_length_unsplit (a : Annotation) (e : ContentChange) :
  ContentChange.startLine e <= startLine a
  \/ endLine a <= ContentChange.endLine e ->
  (List.length (processAnnotationForChangeAndClean a e) <= 1)%nat.
Proof.
  intros H.
  destruct (Z.lt_ge_cases (endLine a) (ContentChange.startLine e)) as [B|B].
  - rewrite transform_before by assumption. cbn. lia.
  - destruct (Z.lt_ge_cases (ContentChange.endLine e) (startLine a)) as [C|C].
    + rewrite transform_after by lia. cbn. lia.
    + rewrite transform_overlap by lia.
      destruct (Z.ltb_spec (startLine a) (ContentChange.startLine e)),
        (Z.ltb_spec (ContentChange.endLine e) (endLine a)); cbn; lia.
Qed.

Lemma transform_length_two (a : Annotation) (e : ContentChange) :
  (List.length (processAnnotationForChangeAndClean a e) <= 2)%nat.
Proof.
  destruct (Z.lt_ge_cases (endLine a) (ContentChange.startLine e)) as [B|B].
  - rewrite transform_before by assumption. cbn. lia.
  - destruct (Z.lt_ge_cases (ContentChange.endLine e) (startLine a)) as [C|C].
    + rewrite transform_after by lia. cbn. lia.
    + rewrite transform_overlap by lia.
      destruct (startLine a <? ContentChange.startLine e),
        (ContentChange.endLine e <? endLine a); cbn; lia.
Qed.

Lemma transformAll_length_behind (annotations : list Annotation)
  (e : ContentChange) :
  Forall (fun a => ContentChange.startLine e <= startLine a) annotations ->
  (List.length (transformAll annotations e) <= List.length annotations)%nat.
Proof.
  unfold transformAll. induction 1 as [|a l Ha H IH]; cbn; [lia|].
  rewrite length_app.
  pose proof (transform_length_unsplit a e (or_introl Ha)). lia.
Qed.

Lemma transformAll_length (annotations : list Annotation) (e : ContentChange) :
  ContentChange.startLine e <= ContentChange.endLine e ->
  StronglySorted separated annotations ->
  (List.length (transformAll annotations e)
   <= List.length annotations + 1)%nat.
Proof.
  intros He. induction 1 as [|a l S IH Ha]; [cbn; lia|].
  change (transformAll (a :: l) e)
    with (processAnnotationForChangeAndClean a e ++ transformAll l e).
  rewrite length_app. cbn [List.length].
  destruct (Z.le_gt_cases (endLine a) (ContentChange.endLine e)) as [U|U].
  - pose proof (transform_length_unsplit a e (or_intror U)). lia.
  - pose proof (transform_length_two a e).
    assert (B : Forall (fun b => ContentChange.startLine e <= startLine b) l).
    { eapply Forall_impl; [|exact Ha]. unfold separated. intros; lia. }
    pose proof (transformAll_length_behind l e B). lia.
Qed.

(** X8.  One edit splits at most one annotation of a merged list: the list the
    transform returns has at most one annotation more. *)
Theorem content_change_adds_at_most_one (annotations : list Annotation)
  (change : ContentChange) :
  ContentChange.startLine change <= ContentChange.endLine change ->
  mergedForm annotations ->
  (List.length (updateAndCleanAnnotationsForContentChange annotations change)
   <= List.length annotations + 1)%nat.
Proof.
  intros He [V S].
  rewrite updateAndCleanAnnotationsForContentChange_transformAll.
  apply transformAll_length; [exact He|now apply separated_all_later].
Qed.

Lemma content_change_adds_at_most_one_witness :
  (List.length
     (updateAndCleanAnnotationsForContentChange
        [sampleAnnotation 1 2; sampleAnnotation 5 9] (sampleEdit 7 7 2 0))
   <= List.length [sampleAnnotation 1 2; sampleAnnotation 5 9] + 1)%nat.
Proof.
  apply (content_change_adds_at_most_one
           [sampleAnnotation 1 2; sampleAnnotation 5 9] (sampleEdit 7 7 2 0)).
  - cbn. lia.
  - split; repeat constructor; unfold validRange, separated; cbn; lia.
Defined.

(** ** What the merger keeps *)

Lemma mergeInto_covers (current next : Annotation) (m : Z) :
  startLine current <= startLine next ->
  startLine next <= endLine current + 1 ->
  covers (mergeInto current next) m <-> covers current m \/ covers next m.
Proof. unfold covers, mergeInto; cbn. lia. Qed.

Lemma mergeScan_covered (rest : list Annotation) :
  forall current m,
    Sorted (fun a b => startLine a <= startLine b) (current :: rest) ->
    covered (mergeScan current rest) m <-> covered (current :: rest) m.
Proof.
  induction rest as [|next rest IH]; intros current m S; [reflexivity|].
  inversion S as [|? ? S' Hd]; subst. inversion Hd as [|? ? Hle]; subst.
  inversion S' as [|? ? S'' Hd']; subst.
  cbn [mergeScan].
  destruct (Z.leb_spec (startLine next) (endLine current + 1)) as [M|M].
  - rewrite IH.
    + rewrite !covered_cons.
      rewrite (mergeInto_covers current next m Hle M). tauto.
    + constructor; [exact S''|].
      destruct Hd' as [|y rest' Hy]; constructor. cbn. lia.
  - rewrite covered_cons, (IH next m S'), !covered_cons. tauto.
Qed.

Lemma squash_covered (annotations : list Annotation) (m : Z) :
  covered (squashOverlappingAnnotations annotations) m
  <-> covered annotations m.
Proof.
  rewrite squashOverlappingAnnotations_mergeSorted.
  pose proof (Array_sort_perm byStartLineAscending annotations) as P.
  rewrite (covered_perm _ _ m P).
  pose proof (Array_sort_sorted byStartLineAscending startLine
                byStartLineAscending_key annotations) as S.
  apply StronglySorted_Sorted in S. unfold mergeSorted.
  destruct (Array_sort byStartLineAscending annotations); [reflexivity|].
  now apply mergeScan_covered.
Qed.

(** X9.  The merger changes no highlighting: a line is covered by the merged
    list exactly when it is covered by the input, for every input (inverted
    ranges, which cover no line, included). *)
Theorem merger_keeps_covered_lines (annotations : list Annotation) (m : Z) :
  covered (squashOverlappingAnnotations annotations) m
  <-> covered annotations m.
Proof. apply squash_covered. Qed.

(** *** Time stamps in the merger *)

Lemma String_compare_refl (s : string) : String.compare s s = Eq.
Proof. now apply OrderedTypeEx.String_as_OT.cmp_eq. Qed.

Lemma String_leb_refl (s : string) : String.leb s s = true.
Proof. unfold String.leb. now rewrite String_compare_refl. Qed.

Lemma String_leb_cases (s1 s2 : string) :
  String.leb s1 s2 = true <-> s1 = s2 \/ OrderedTypeEx.String_as_OT.lt s1 s2.
Proof.
  unfold String.leb. split.
  - destruct (String.compare s1 s2) eqn:E; [| |discriminate]; intros _.
    + left. now apply OrderedTypeEx.String_as_OT.cmp_eq.
    + right. now apply OrderedTypeEx.String_as_OT.cmp_lt.
  - intros [->|H].
    + now rewrite String_compare_refl.
    + apply OrderedTypeEx.String_as_OT.cmp_lt in H. unfold OrderedTypeEx.String_as_OT.cmp in H.
      now rewrite H.
Qed.

Lemma String_leb_trans (s1 s2 s3 : string) :
  String.leb s1 s2 = true -> String.leb s2 s3 = true ->
  String.leb s1 s3 = true.
Proof.
  rewrite !String_leb_cases. intros [->|H1] [->|H2]; auto.
  right. eapply OrderedTypeEx.String_as_OT.lt_trans; eassumption.
Qed.

Lemma laterTimestamp_upper (t1 t2 : string) :
  String.leb t1 (laterTimestamp t1 t2) = true
  /\ String.leb t2 (laterTimestamp t1 t2) = true.
Proof.
  unfold laterTimestamp. destruct (String.compare t1 t2) eqn:E.
  - apply OrderedTypeEx.String_as_OT.cmp_eq in E. subst. split; apply String_leb_refl.
  - split; [|apply String_leb_refl]. unfold String.leb. now rewrite E.
  - split; [apply String_leb_refl|]. unfold String.leb.
    rewrite String.compare_antisym, E. reflexivity.
Qed.

Lemma laterTimestamp_one_of (t1 t2 : string) :
  laterTimestamp t1 t2 = t1 \/ laterTimestamp t1 t2 = t2.
Proof. unfold laterTimestamp. destruct (String.compare t1 t2); auto. Qed.

Lemma absorbs_refl (a : Annotation) : absorbs a a.
Proof. unfold absorbs. repeat split; try lia. apply String_leb_refl. Qed.

Lemma absorbs_trans (r a b : Annotation) :
  absorbs r a -> absorbs a b -> absorbs r b.
Proof.
  unfold absorbs. intros (H1 & H2 & H3) (H4 & H5 & H6).
  repeat split; try lia. eapply String_leb_trans; eassumption.
Qed.

Lemma mergeInto_absorbs (current next : Annotation) :
  startLine current <= startLine next ->
  absorbs (mergeInto current next) current
  /\ absorbs (mergeInto current next) next.
Proof.
  intros H. unfold absorbs, mergeInto; cbn.
  destruct (laterTimestamp_upper (timestamp current) (timestamp next)).
  repeat split; try lia; assumption.
Qed.

Lemma mergeScan_absorbs (rest : list Annotation) :
  forall current a,
    Sorted (fun x y => startLine x <= startLine y) (current :: rest) ->
    In a (current :: rest) ->
    exists r, In r (mergeScan current rest) /\ absorbs r a.
Proof.
  induction rest as [|next rest IH]; intros current a S Ha.
  - destruct Ha as [<-|[]]. exists current. split; [now left|].
    apply absorbs_refl.
  - inversion S as [|? ? S' Hd]; subst. inversion Hd as [|? ? Hle]; subst.
    inversion S' as [|? ? S'' Hd']; subst.
    cbn [mergeScan].
    destruct (Z.leb_spec (startLine next) (endLine current + 1)) as [M|M].
    + assert (Sm : Sorted (fun x y => startLine x <= startLine y)
                     (mergeInto current next :: rest)).
      { constructor; [exact S''|].
        destruct Hd' as [|y rest' Hy]; constructor. cbn. lia. }
      destruct (mergeInto_absorbs current next Hle) as [A1 A2].
      destruct Ha as [<-|[<-|Ha]].
      * destruct (IH _ (mergeInto current next) Sm (or_introl eq_refl))
          as (r & Hr & Hab).
        exists r. split; [exact Hr|]. eapply absorbs_trans; eassumption.
      * destruct (IH _ (mergeInto current next) Sm (or_introl eq_refl))
          as (r & Hr & Hab).
        exists r. split; [exact Hr|]. eapply absorbs_trans; eassumption.
      * apply (IH _ a Sm). now right.
    + destruct Ha as [<-|Ha].
      * exists current. split; [now left|apply absorbs_refl].
      * destruct (IH next a S' Ha) as (r & Hr & Hab).
        exists r. split; [now right|exact Hab].
Qed.

Lemma mergeScan_stamp_from (rest : list Annotation) :
  forall current r,
    In r (mergeScan current rest) ->
    exists a, In a (current :: rest) /\ timestamp r = timestamp a.
Proof.
  induction rest as [|next rest IH]; intros current r Hr.
  - destruct Hr as [<-|[]]. exists current. split; [now left|reflexivity].
  - cbn [mergeScan] in Hr.
    destruct (startLine next <=? endLine current + 1).
    + apply IH in Hr. destruct Hr as (a & [<-|Ha] & Ht).
      * cbn in Ht.
        destruct (laterTimestamp_one_of (timestamp current) (timestamp next))
          as [E|E]; rewrite E in Ht.
        -- exists current. split; [now left|exact Ht].
        -- exists next. split; [right; now left|exact Ht].
      * exists a. split; [right; now right|exact Ht].
    + destruct Hr as [<-|Hr].
      * exists current. split; [now left|reflexivity].
      * apply IH in Hr. destruct Hr as (a & Ha & Ht).
        exists a. split; [now right|exact Ht].
Qed.

(** X10.  The merger keeps the latest time stamp and invents none: every
    annotation of the input lies within an annotation of the output whose time
    stamp is not earlier, and the time stamp of every annotation of the output
    is the time stamp of an annotation of the input. *)
Theorem merger_keeps_latest_timestamp (annotations : list Annotation) :
  (forall a, In a annotations ->
     exists r, In r (squashOverlappingAnnotations annotations) /\ absorbs r a)
  /\ (forall r, In r (squashOverlappingAnnotations annotations) ->
        exists a, In a annotations /\ timestamp r = timestamp a).
Proof.
  rewrite squashOverlappingAnnotations_mergeSorted.
  pose proof (Array_sort_perm byStartLineAscending annotations) as P.
  pose proof (Array_sort_sorted byStartLineAscending startLine
                byStartLineAscending_key annotations) as S.
  apply StronglySorted_Sorted in S. unfold mergeSorted.
  destruct (Array_sort byStartLineAscending annotations) as [|first rest].
  - split.
    + intros a Ha. apply (Permutation_in _ P) in Ha. destruct Ha.
    + intros r [].
  - split.
    + intros a Ha. apply (Permutation_in _ P) in Ha.
      now apply mergeScan_absorbs.
    + intros r Hr. apply mergeScan_stamp_from in Hr.
      destruct Hr as (a & Ha & Ht). exists a. split; [|exact Ht].
      eapply Permutation_in; [symmetry; exact P|exact Ha].
Qed.

Lemma merger_keeps_latest_timestamp_witness :
  exists r,
    In r (squashOverlappingAnnotations
            [ mkAnnotation 1 3 "2024-01-01T00:00:00.000Z" ai_generated;
              mkAnnotation 2 5 "2024-01-01T00:01:00.000Z" ai_generated ])
    /\ absorbs r (mkAnnotation 2 5 "2024-01-01T00:01:00.000Z" ai_generated).
Proof.
  apply (merger_keeps_latest_timestamp
           [ mkAnnotation 1 3 "2024-01-01T00:00:00.000Z" ai_generated;
             mkAnnotation 2 5 "2024-01-01T00:01:00.000Z" ai_generated ]).
  right. now left.
Defined.

(** ** What applyChange highlights *)

Lemma synthesized_in (clock : Clock) (edits : list ContentChange)
  (a : Annotation) :
  In a (synthesized clock edits) <->
  exists e now, In e edits /\ In a (synthesized clock edits)
                /\ a = synthesizedAnnotation e now.
Proof.
  split; [|now intros (e & now & _ & H & _)].
  revert clock. induction edits as [|e edits IH]; intros clock H;
    [destruct H|].
  cbn in H. destruct H as [<-|H].
  - exists e, (clock 0%nat). repeat split; now left.
  - destruct (IH _ H) as (e' & now & He & Ha & ->).
    exists e', now. repeat split; [now right|].
    cbn. now right.
Qed.

Lemma synthesized_covered (clock : Clock) (edits : list ContentChange)
  (m : Z) :
  covered (synthesized clock edits) m
  <-> exists e, In e edits /\ marks e m.
Proof.
  unfold covered, marks. split.
  - intros (a & Ha & Hc). apply synthesized_in in Ha.
    destruct Ha as (e & now & He & _ & ->). exists e. split; [exact He|].
    exact Hc.
  - revert clock. induction edits as [|e edits IH];
      intros clock (x & Hx & Hm); [destruct Hx|].
    destruct Hx as [<-|Hx].
    + exists (synthesizedAnnotation e (clock 0%nat)).
      split; [now left|exact Hm].
    + destruct (IH (fun n => clock (S n))) as (a & Ha & Hc);
        [now exists x|].
      exists a. split; [now right|exact Hc].
Qed.

Lemma applyChange_covered_general (clock : Clock) (snapshot : Snapshot)
  (commit : Commit) (m : Z) :
  covered (Snapshot.highlightedRanges (applyChangeResult clock snapshot commit))
    m
  <-> covered (updateAndCleanAnnotationsForCommit
                 (Snapshot.highlightedRanges snapshot)
                 (Commit.contentChanges commit)) m
      \/ (Commit.isSignificant commit = true
          /\ exists e, In e (Commit.contentChanges commit) /\ marks e m).
Proof.
  rewrite applyChangeResult_eq. cbn [Snapshot.highlightedRanges].
  rewrite squash_covered, covered_app.
  destruct (Commit.isSignificant commit).
  - rewrite synthesized_covered. tauto.
  - split; [intros [H|H]; [now left|now apply covered_nil in H]|].
    intros [H|[H _]]; [now left|discriminate].
Qed.

(** X11.  After a significant commit every line the synthesizer marks is
    highlighted: for each edit the lines from [startLine] to [startLine +
    addedLines], in the line numbers the edit was reported with. *)
Theorem applyChange_highlights_insertions (clock : Clock) (snapshot : Snapshot)
  (commit : Commit) (e : ContentChange) (m : Z) :
  Commit.isSignificant commit = true ->
  In e (Commit.contentChanges commit) ->
  marks e m ->
  covered (Snapshot.highlightedRanges (applyChangeResult clock snapshot commit))
    m.
Proof.
  intros Hs He Hm. apply applyChange_covered_general. right.
  split; [exact Hs|now exists e].
Qed.

Lemma applyChange_highlights_insertions_witness :
  covered
    (Snapshot.highlightedRanges
       (applyChangeResult morningClock
          (sampleSnapshot [sampleAnnotation 2 4])
          {| Commit.documentVersion := 2;
             Commit.isSignificant := true;
             Commit.contentChanges := [sampleEdit 6 6 2 0] |}))
    8.
Proof.
  apply (applyChange_highlights_insertions morningClock
           (sampleSnapshot [sampleAnnotation 2 4])
           {| Commit.documentVersion := 2;
              Commit.isSignificant := true;
              Commit.contentChanges := [sampleEdit 6 6 2 0] |}
           (sampleEdit 6 6 2 0) 8).
  - reflexivity.
  - now left.
  - unfold marks; cbn. lia.
Defined.

(** X12.  The highlighting after [applyChange], for well-formed edits that
    replace no common line: a line is highlighted exactly when it is the new
    number [l + shift] of a highlighted line [l] that no edit replaced, or
    when the commit is significant and the synthesizer marks the line for one
    of the edits. *)
Theorem applyChange_covered (clock : Clock) (snapshot : Snapshot)
  (commit : Commit) (m : Z) :
  Forall wellFormedEdit (Commit.contentChanges commit) ->
  ForallOrdPairs disjointEdits (Commit.contentChanges commit) ->
  covered (Snapshot.highlightedRanges (applyChangeResult clock snapshot commit))
    m
  <-> (exists l, covered (Snapshot.highlightedRanges snapshot) l
                 /\ ~ touched (Commit.contentChanges commit) l
                 /\ m = l + shiftOf (Commit.contentChanges commit) l)
      \/ (Commit.isSignificant commit = true
          /\ exists e, In e (Commit.contentChanges commit) /\ marks e m).
Proof.
  intros W D. rewrite applyChange_covered_general.
  now rewrite (batch_disjoint_covered _ _ m W D).
Qed.

Lemma applyChange_covered_witness :
  covered
    (Snapshot.highlightedRanges
       (applyChangeResult morningClock
          (sampleSnapshot [sampleAnnotation 8 10])
          {| Commit.documentVersion := 2;
             Commit.isSignificant := false;
             Commit.contentChanges :=
               [sampleEdit 5 5 3 0; sampleEdit 10 10 0 0] |}))
    12.
Proof.
  apply (applyChange_covered morningClock
           (sampleSnapshot [sampleAnnotation 8 10])
           {| Commit.documentVersion := 2;
              Commit.isSignificant := false;
              Commit.contentChanges :=
                [sampleEdit 5 5 3 0; sampleEdit 10 10 0 0] |} 12).
  - repeat constructor; cbn; lia.
  - constructor; [|repeat constructor].
    constructor; [|constructor]. left. cbn. lia.
  - left. exists 9. split; [|split].
    + exists (sampleAnnotation 8 10). split; [now left|]. unfold covers; cbn. lia.
    + intros (e & [<-|[<-|[]]] & [H1 H2]); cbn in H1, H2; lia.
    + reflexivity.
Defined.


(** ** hoverProvider.ts *)

Lemma hover_test_covers (lineNumber : Z) (a : Annotation) :
  (lineNumber >=? startLine a) && (lineNumber <=? endLine a) = true
  <-> covers a lineNumber.
Proof.
  unfold covers. rewrite andb_true_iff, Z.geb_le, Z.leb_le. tauto.
Qed.

(** X13.  The annotation the hover shows covers the line under the pointer and
    belongs to the snapshot; there is no hover exactly when no annotation
    covers the line. *)
Theorem findAnnotationAtPosition_covers (annotations : list Annotation)
  (position : Position) :
  (forall a, findAnnotationAtPosition annotations position = Some a ->
     In a annotations /\ covers a (line position + 1))
  /\ (findAnnotationAtPosition annotations position = None
      <-> ~ covered annotations (line position + 1)).
Proof.
  unfold findAnnotationAtPosition. cbv zeta. split.
  - intros a H. apply find_some in H. destruct H as [Hin H].
    split; [exact Hin|now apply hover_test_covers].
  - split.
    + intros H (a & Ha & Hc).
      pose proof (find_none _ _ H a Ha) as N. cbn beta in N.
      apply hover_test_covers in Hc. congruence.
    + intros N.
      destruct (find _ annotations) as [a|] eqn:E; [|reflexivity].
      apply find_some in E. destruct E as [Hin E].
      exfalso. apply N. exists a. split; [exact Hin|].
      now apply hover_test_covers.
Qed.

(** *** The snapshot invariant, pair by pair *)

Lemma apart_sym (a b : Annotation) : apart a b -> apart b a.
Proof. unfold apart, overlap, adjacent. tauto. Qed.

Lemma ForallOrdPairs_app {A : Type} (R : A -> A -> Prop) (l1 l2 : list A) :
  ForallOrdPairs R (l1 ++ l2)
  <-> ForallOrdPairs R l1 /\ ForallOrdPairs R l2
      /\ (forall a b, In a l1 -> In b l2 -> R a b).
Proof.
  induction l1 as [|x l1 IH]; cbn.
  - split; [intros H; repeat split; [constructor|exact H|intros ? ? []]|].
    now intros (_ & H & _).
  - split.
    + intros H. inversion H as [|? ? Hx Hl]; subst.
      apply IH in Hl. destruct Hl as (H1 & H2 & H3).
      apply Forall_app in Hx. destruct Hx as [Hx1 Hx2].
      repeat split; [now constructor|exact H2|].
      intros a b [<-|Ha] Hb; [|now apply H3].
      rewrite Forall_forall in Hx2. now apply Hx2.
    + intros (H1 & H2 & H3). inversion H1 as [|? ? Hx Hl]; subst.
      constructor.
      * apply Forall_app. split; [exact Hx|].
        apply Forall_forall. intros b Hb. apply H3; [now left|exact Hb].
      * apply IH. repeat split; [exact Hl|exact H2|].
        intros a b Ha Hb. apply H3; [now right|exact Hb].
Qed.

Lemma ForallOrdPairs_nth_error {A : Type} (R : A -> A -> Prop) (l : list A) :
  ForallOrdPairs R l ->
  forall (i j : nat) (a b : A),
    (i < j)%nat -> nth_error l i = Some a -> nth_error l j = Some b -> R a b.
Proof.
  induction 1 as [|x l Hx H IH]; intros i j a b Hij Hi Hj.
  - destruct i; discriminate Hi.
  - destruct j as [|j]; [lia|]. cbn in Hj. destruct i as [|i]; cbn in Hi.
    + injection Hi as <-. rewrite Forall_forall in Hx.
      apply Hx. eapply nth_error_In, Hj.
    + apply (IH i j); [lia|assumption|assumption].
Qed.

Lemma snapshotInvariant_pairs (l : list Annotation) :
  snapshotInvariant l <-> Forall validRange l /\ ForallOrdPairs apart l.
Proof.
  unfold snapshotInvariant. split; intros [V H]; (split; [exact V|]).
  - clear V. induction l as [|x l IH]; [constructor|].
    constructor.
    + apply Forall_forall. intros b Hb. apply In_nth_error in Hb.
      destruct Hb as [j Hj]. apply (H 0%nat (S j)); [lia|reflexivity|exact Hj].
    + apply IH. intros i j a b Hij Hi Hj.
      apply (H (S i) (S j)); [lia|exact Hi|exact Hj].
  - intros i j a b Hij Hi Hj.
    destruct (Nat.lt_total i j) as [L|[E|L]]; [|contradiction|].
    + apply (ForallOrdPairs_nth_error _ _ H i j a b L Hi Hj).
    + apply apart_sym.
      apply (ForallOrdPairs_nth_error _ _ H j i b a L Hj Hi).
Qed.

Lemma snapshotInvariant_one_cover (l : list Annotation) (a b : Annotation)
  (m : Z) :
  snapshotInvariant l -> In a l -> In b l -> covers a m -> covers b m ->
  a = b.
Proof.
  intros [_ H] Ha Hb Ca Cb.
  apply In_nth_error in Ha. destruct Ha as [i Hi].
  apply In_nth_error in Hb. destruct Hb as [j Hj].
  destruct (Nat.eq_dec i j) as [->|N]; [congruence|].
  destruct (H i j a b N Hi Hj) as [O _]. exfalso. apply O.
  unfold overlap, covers in *. lia.
Qed.

(** X14.  On a snapshot that satisfies the invariant the hover shows the one
    annotation that covers the line, wherever it stands in the list. *)
Theorem findAnnotationAtPosition_unique (annotations : list Annotation)
  (position : Position) (a : Annotation) :
  snapshotInvariant annotations ->
  findAnnotationAtPosition annotations position = Some a
  <-> In a annotations /\ covers a (line position + 1).
Proof.
  intros I. split.
  - unfold findAnnotationAtPosition. cbv zeta. intros H.
    apply find_some in H. destruct H as [Hin H].
    split; [exact Hin|now apply hover_test_covers].
  - intros [Ha Hc]. unfold findAnnotationAtPosition. cbv zeta.
    destruct (find _ annotations) as [b|] eqn:E.
    + apply find_some in E. destruct E as [Hb E].
      apply hover_test_covers in E. f_equal.
      apply (snapshotInvariant_one_cover annotations b a _ I Hb Ha E Hc).
    + pose proof (find_none _ _ E a Ha) as N. cbn beta in N.
      apply hover_test_covers in Hc. congruence.
Qed.

Lemma findAnnotationAtPosition_unique_witness :
  findAnnotationAtPosition
    [sampleAnnotation 5 7; sampleAnnotation 1 2] (mkPosition 0 3)
  = Some (sampleAnnotation 1 2).
Proof.
  apply (findAnnotationAtPosition_unique
           [sampleAnnotation 5 7; sampleAnnotation 1 2] (mkPosition 0 3)).
  - apply snapshotInvariant_pairs. split.
    + repeat constructor; unfold validRange; cbn; lia.
    + repeat constructor; unfold overlap, adjacent; cbn; lia.
  - split; [right; now left|]. unfold covers; cbn. lia.
Defined.

(** *** Looking an annotation up by its lines and time stamp *)

Lemma isAnnotation_true (s e : Z) (t : string) (a : Annotation) :
  isAnnotation s e t a = true
  <-> startLine a = s /\ endLine a = e /\ timestamp a = t.
Proof.
  unfold isAnnotation.
  rewrite !andb_true_iff, !Z.eqb_eq, String.eqb_eq. tauto.
Qed.

Lemma Array_findIndex_Some {A : Type} (p : A -> bool) (l : list A) (i : nat) :
  Array_findIndex p l = Some i ->
  exists l1 x l2,
    l = l1 ++ x :: l2 /\ p x = true
    /\ (forall y, In y l1 -> p y = false)
    /\ nth_error l i = Some x
    /\ Array_splice1 i l = l1 ++ l2.
Proof.
  revert i. induction l as [|y l IH]; intros i H; [discriminate|].
  cbn in H. destruct (p y) eqn:E.
  - injection H as <-. exists [], y, l. repeat split; auto.
    intros ? [].
  - destruct (Array_findIndex p l) as [k|]; [|discriminate].
    injection H as <-. destruct (IH k eq_refl) as (l1 & x & l2 & -> & H).
    destruct H as (Hx & Hl1 & Hn & Hs).
    exists (y :: l1), x, l2. repeat split; auto.
    + intros z [<-|Hz]; auto.
    + cbn. now rewrite Hs.
Qed.

Lemma Array_findIndex_None {A : Type} (p : A -> bool) (l : list A) :
  Array_findIndex p l = None <-> forall y, In y l -> p y = false.
Proof.
  induction l as [|y l IH]; cbn.
  - split; [intros _ ? []|reflexivity].
  - destruct (p y) eqn:E.
    + split; [discriminate|]. intros H. specialize (H y (or_introl eq_refl)).
      congruence.
    + destruct (Array_findIndex p l) as [k|]; cbn.
      * split; [discriminate|]. intros H.
        assert (N : Some k = None)
          by (apply (proj2 IH); intros z Hz; apply H; now right).
        discriminate N.
      * split; [|reflexivity]. intros _ z [<-|Hz]; [exact E|].
        now apply (proj1 IH).
Qed.

(** X15.  [removeAnnotation] throws exactly when no annotation of the snapshot
    has the lines and the time stamp asked for; otherwise it removes the first
    such annotation and nothing else: the other annotations stay, in their
    order, and so do [lastUpdated] and [documentVersion]. *)
Theorem removeAnnotation_first_match (snapshot : Snapshot) (s e : Z)
  (t : string) :
  match removeAnnotation snapshot s e t with
  | Throws message =>
      message = "Annotation not found"%string
      /\ forall a, In a (Snapshot.highlightedRanges snapshot) ->
                   ~ (startLine a = s /\ endLine a = e /\ timestamp a = t)
  | Returns snapshot' =>
      exists l1 a l2,
        Snapshot.highlightedRanges snapshot = l1 ++ a :: l2
        /\ (startLine a = s /\ endLine a = e /\ timestamp a = t)
        /\ (forall b, In b l1 ->
              ~ (startLine b = s /\ endLine b = e /\ timestamp b = t))
        /\ snapshot' = withRanges snapshot (l1 ++ l2)
  end.
Proof.
  unfold removeAnnotation.
  destruct (Array_findIndex (isAnnotation s e t)
              (Snapshot.highlightedRanges snapshot)) as [i|] eqn:E.
  - apply Array_findIndex_Some in E.
    destruct E as (l1 & a & l2 & Hl & Ha & Hl1 & _ & Hs).
    exists l1, a, l2.
    split; [exact Hl|]. split; [now apply isAnnotation_true|]. split.
    + intros b Hb N. apply isAnnotation_true in N.
      rewrite (Hl1 b Hb) in N. discriminate.
    + unfold withRanges. now rewrite Hs.
  - split; [reflexivity|]. intros a Ha N. apply isAnnotation_true in N.
    rewrite (proj1 (Array_findIndex_None _ _) E a Ha) in N. discriminate.
Qed.

Lemma removeAnnotation_Returns (snapshot snapshot' : Snapshot) (s e : Z)
  (t : string) :
  removeAnnotation snapshot s e t = Returns snapshot' ->
  exists l1 a l2,
    Snapshot.highlightedRanges snapshot = l1 ++ a :: l2
    /\ startLine a = s /\ endLine a = e /\ timestamp a = t
    /\ snapshot' = withRanges snapshot (l1 ++ l2).
Proof.
  unfold removeAnnotation.
  destruct (Array_findIndex (isAnnotation s e t)
              (Snapshot.highlightedRanges snapshot)) as [i|] eqn:E;
    [|discriminate].
  apply Array_findIndex_Some in E.
  destruct E as (l1 & a & l2 & Hl & Ha & _ & _ & Hs).
  apply isAnnotation_true in Ha. destruct Ha as (H1 & H2 & H3).
  intros [= <-]. exists l1, a, l2. repeat split; auto.
  unfold withRanges. now rewrite Hs.
Qed.

Lemma invariant_without (l1 l2 : list Annotation) (a : Annotation) :
  snapshotInvariant (l1 ++ a :: l2) ->
  snapshotInvariant (l1 ++ l2)
  /\ validRange a
  /\ (forall x, In x (l1 ++ l2) -> validRange x /\ apart x a).
Proof.
  intros I. apply snapshotInvariant_pairs in I. destruct I as [V P].
  apply Forall_app in V. destruct V as [V1 V2].
  inversion V2 as [|? ? Va V2']; subst.
  apply ForallOrdPairs_app in P. destruct P as (P1 & P2 & P3).
  inversion P2 as [|? ? Pa P2']; subst.
  split; [|split; [exact Va|]].
  - apply snapshotInvariant_pairs. split; [apply Forall_app; now split|].
    apply ForallOrdPairs_app. split; [exact P1|split; [exact P2'|]].
    intros x y Hx Hy. apply P3; [exact Hx|now right].
  - intros x Hx. apply in_app_or in Hx. destruct Hx as [Hx|Hx].
    + split; [rewrite Forall_forall in V1; now apply V1|].
      apply P3; [exact Hx|now left].
    + split; [rewrite Forall_forall in V2'; now apply V2'|].
      apply apart_sym. rewrite Forall_forall in Pa. now apply Pa.
Qed.

Lemma covered_without (l1 l2 : list Annotation) (a : Annotation) (m : Z) :
  snapshotInvariant (l1 ++ a :: l2) ->
  covered (l1 ++ l2) m <-> covered (l1 ++ a :: l2) m /\ ~ covers a m.
Proof.
  intros I. destruct (invariant_without l1 l2 a I) as (_ & Va & H).
  split.
  - intros (x & Hx & Hc). split.
    + exists x. split; [|exact Hc].
      apply in_app_or in Hx. apply in_or_app.
      destruct Hx; [now left|right; now right].
    + intros Ca. destruct (H x Hx) as [_ [O _]]. apply O.
      unfold overlap, covers in *. lia.
  - intros [(x & Hx & Hc) N]. exists x. split; [|exact Hc].
    apply in_app_or in Hx. apply in_or_app.
    destruct Hx as [Hx|[<-|Hx]]; [now left|contradiction|now right].
Qed.

(** X16.  On a snapshot that satisfies the invariant, [removeAnnotation] takes
    the highlighting from the lines [startLine..endLine] and from no other
    line, and the snapshot it saves satisfies the invariant. *)
Theorem removeAnnotation_clears_lines (snapshot snapshot' : Snapshot)
  (s e : Z) (t : string) :
  snapshotInvariant (Snapshot.highlightedRanges snapshot) ->
  removeAnnotation snapshot s e t = Returns snapshot' ->
  snapshotInvariant (Snapshot.highlightedRanges snapshot')
  /\ forall m, covered (Snapshot.highlightedRanges snapshot') m
               <-> covered (Snapshot.highlightedRanges snapshot) m
                   /\ ~ (s <= m <= e).
Proof.
  intros I H. apply removeAnnotation_Returns in H.
  destruct H as (l1 & a & l2 & Hl & <- & <- & _ & ->).
  rewrite Hl in *. cbn [withRanges Snapshot.highlightedRanges].
  split; [now apply invariant_without in I|].
  intros m. apply (covered_without l1 l2 a m I).
Qed.

Lemma removeAnnotation_clears_lines_witness :
  snapshotInvariant [sampleAnnotation 1 2]
  /\ forall m, covered [sampleAnnotation 1 2] m
               <-> covered [sampleAnnotation 1 2; sampleAnnotation 5 7] m
                   /\ ~ (5 <= m <= 7).
Proof.
  apply (removeAnnotation_clears_lines
           (sampleSnapshot [sampleAnnotation 1 2; sampleAnnotation 5 7])
           (sampleSnapshot [sampleAnnotation 1 2]) 5 7 sampleTimestamp).
  - apply snapshotInvariant_pairs. split.
    + repeat constructor; unfold validRange; cbn; lia.
    + repeat constructor; unfold overlap, adjacent; cbn; lia.
  - reflexivity.
Defined.

(** *** Removing part of an annotation *)

Lemma removePartialAnnotation_eq (snapshot : Snapshot) (s e rs re : Z)
  (t : string) (clock : Clock) :
  fst (removePartialAnnotation snapshot s e rs re t clock)
  = match Array_findIndex (isAnnotation s e t)
            (Snapshot.highlightedRanges snapshot) with
    | None => Throws "Annotation not found"
    | Some i =>
        match nth_error (Snapshot.highlightedRanges snapshot) i with
        | None => Throws "TypeError"
        | Some a =>
            Returns
              (withRanges snapshot
                 (Array_splice1 i (Snapshot.highlightedRanges snapshot)
                  ++ remainingParts a rs re clock))
        end
    end.
Proof.
  unfold removePartialAnnotation.
  destruct (Array_findIndex _ _) as [i|]; [|reflexivity].
  destruct (nth_error _ i) as [a|]; [|reflexivity].
  unfold remainingParts, bind, ret, Date_toISOString, partInFront, partBehind.
  destruct (startLine a <? rs), (re <? endLine a); reflexivity.
Qed.

Lemma removePartialAnnotation_Returns (snapshot snapshot' : Snapshot)
  (s e rs re : Z) (t : string) (clock : Clock) :
  fst (removePartialAnnotation snapshot s e rs re t clock) = Returns snapshot' ->
  exists l1 a l2,
    Snapshot.highlightedRanges snapshot = l1 ++ a :: l2
    /\ startLine a = s /\ endLine a = e /\ timestamp a = t
    /\ snapshot'
       = withRanges snapshot ((l1 ++ l2) ++ remainingParts a rs re clock).
Proof.
  rewrite removePartialAnnotation_eq.
  destruct (Array_findIndex (isAnnotation s e t)
              (Snapshot.highlightedRanges snapshot)) as [i|] eqn:E;
    [|discriminate].
  apply Array_findIndex_Some in E.
  destruct E as (l1 & a & l2 & Hl & Ha & _ & Hn & Hs).
  apply isAnnotation_true in Ha. destruct Ha as (H1 & H2 & H3).
  rewrite Hn, Hs. intros [= <-]. exists l1, a, l2. repeat split; auto.
Qed.

(** X17.  [removePartialAnnotation] throws in the cases in which
    [removeAnnotation] throws, and when the lines to remove reach over both
    ends of the annotation it does what [removeAnnotation] does (and reads no
    clock). *)
Theorem removePartialAnnotation_whole (snapshot : Snapshot) (s e rs re : Z)
  (t : string) (clock : Clock) :
  (forall message,
     removeAnnotation snapshot s e t = Throws message
     <-> fst (removePartialAnnotation snapshot s e rs re t clock)
         = Throws message)
  /\ (rs <= s -> e <= re ->
      fst (removePartialAnnotation snapshot s e rs re t clock)
      = removeAnnotation snapshot s e t).
Proof.
  rewrite removePartialAnnotation_eq. unfold removeAnnotation.
  destruct (Array_findIndex (isAnnotation s e t)
              (Snapshot.highlightedRanges snapshot)) as [i|] eqn:E.
  - apply Array_findIndex_Some in E.
    destruct E as (l1 & a & l2 & Hl & Ha & _ & Hn & Hs).
    apply isAnnotation_true in Ha. destruct Ha as (H1 & H2 & H3).
    rewrite Hn. split; [intros message; split; discriminate|].
    intros Hrs Hre. unfold remainingParts.
    destruct (Z.ltb_spec (startLine a) rs); [lia|].
    destruct (Z.ltb_spec re (endLine a)); [lia|].
    cbn [app]. now rewrite app_nil_r.
  - split; [reflexivity|reflexivity].
Qed.

Lemma removePartialAnnotation_whole_witness :
  fst (removePartialAnnotation
         (sampleSnapshot [sampleAnnotation 1 2; sampleAnnotation 5 7])
         5 7 5 7 sampleTimestamp morningClock)
  = removeAnnotation
      (sampleSnapshot [sampleAnnotation 1 2; sampleAnnotation 5 7])
      5 7 sampleTimestamp.
Proof.
  apply (removePartialAnnotation_whole
           (sampleSnapshot [sampleAnnotation 1 2; sampleAnnotation 5 7])
           5 7 5 7 sampleTimestamp morningClock); lia.
Defined.

Lemma partInFront_covered (a : Annotation) (rs : Z) (now : string) (m : Z) :
  covered (if startLine a <? rs then [partInFront a rs now] else []) m
  <-> startLine a <= m /\ m <= rs - 1.
Proof.
  destruct (Z.ltb_spec (startLine a) rs).
  - rewrite covered_single. unfold covers, partInFront; cbn. lia.
  - split; [intros C; now apply covered_nil in C|lia].
Qed.

Lemma partBehind_covered (a : Annotation) (re : Z) (now : string) (m : Z) :
  covered (if re <? endLine a then [partBehind a re now] else []) m
  <-> re + 1 <= m /\ m <= endLine a.
Proof.
  destruct (Z.ltb_spec re (endLine a)).
  - rewrite covered_single. unfold covers, partBehind; cbn. lia.
  - split; [intros C; now apply covered_nil in C|lia].
Qed.

Lemma remainingParts_covered (a : Annotation) (rs re : Z) (clock : Clock)
  (m : Z) :
  startLine a <= rs -> rs <= re -> re <= endLine a ->
  covered (remainingParts a rs re clock) m
  <-> covers a m /\ ~ (rs <= m <= re).
Proof.
  intros H1 H2 H3. unfold remainingParts.
  rewrite covered_app, partInFront_covered, partBehind_covered.
  unfold covers. lia.
Qed.

Lemma remainingParts_within (a : Annotation) (rs re : Z) (clock : Clock) :
  startLine a <= rs -> rs <= re -> re <= endLine a ->
  Forall (within a) (remainingParts a rs re clock)
  /\ ForallOrdPairs apart (remainingParts a rs re clock).
Proof.
  intros H1 H2 H3. unfold remainingParts.
  destruct (Z.ltb_spec (startLine a) rs), (Z.ltb_spec re (endLine a));
    cbn [app]; split; repeat constructor;
    unfold within, overlap, adjacent, partInFront, partBehind; cbn; lia.
Qed.

Lemma apart_within (x a f : Annotation) :
  validRange x -> apart x a -> within a f -> apart x f.
Proof. unfold validRange, apart, overlap, adjacent, within. lia. Qed.

(** X18.  When the lines to remove lie within the annotation, as the hover
    offers them, and the snapshot satisfies the invariant,
    [removePartialAnnotation] takes the highlighting from exactly these lines,
    and the snapshot it saves satisfies the invariant (its list need not be in
    ascending order any more: the remaining parts stand at its end). *)
Theorem removePartialAnnotation_within (snapshot snapshot' : Snapshot)
  (s e rs re : Z) (t : string) (clock : Clock) :
  snapshotInvariant (Snapshot.highlightedRanges snapshot) ->
  s <= rs -> rs <= re -> re <= e ->
  fst (removePartialAnnotation snapshot s e rs re t clock) = Returns snapshot' ->
  snapshotInvariant (Snapshot.highlightedRanges snapshot')
  /\ forall m, covered (Snapshot.highlightedRanges snapshot') m
               <-> covered (Snapshot.highlightedRanges snapshot) m
                   /\ ~ (rs <= m <= re).
Proof.
  intros I H1 H2 H3 H. apply removePartialAnnotation_Returns in H.
  destruct H as (l1 & a & l2 & Hl & <- & <- & _ & ->).
  rewrite Hl in *. cbn [withRanges Snapshot.highlightedRanges].
  destruct (invariant_without l1 l2 a I) as (I' & Va & Hx).
  destruct (remainingParts_within a rs re clock H1 H2 H3) as [W P].
  split.
  - apply snapshotInvariant_pairs in I'. destruct I' as [V' P'].
    apply snapshotInvariant_pairs. split.
    + apply Forall_app. split; [exact V'|].
      eapply Forall_impl; [|exact W]. unfold within, validRange. intros; lia.
    + apply ForallOrdPairs_app. split; [exact P'|split; [exact P|]].
      intros x f Hx' Hf. destruct (Hx x Hx') as [Vx Ax].
      rewrite Forall_forall in W.
      apply (apart_within x a f Vx Ax (W f Hf)).
  - intros m. rewrite covered_app, (covered_without l1 l2 a m I).
    rewrite (remainingParts_covered a rs re clock m H1 H2 H3).
    assert (Ca : covers a m -> covered (l1 ++ a :: l2) m).
    { intros C. exists a. split; [|exact C]. apply in_or_app. right. now left. }
    unfold covers in *.
    destruct (Z.lt_ge_cases m (startLine a)), (Z.lt_ge_cases (endLine a) m);
      split; intros; try tauto; try lia.
    all: try (split; [tauto|lia]).
    all: try (split; [apply Ca; lia|lia]).
    all: try (left; split; [tauto|lia]).
    all: try (right; lia).
Qed.

Lemma removePartialAnnotation_within_witness :
  snapshotInvariant
    [sampleAnnotation 1 2;
     mkAnnotation 5 5 "2024-01-01T08:00:00.000Z" ai_generated;
     mkAnnotation 7 9 "2024-01-01T08:00:00.000Z" ai_generated]
  /\ forall m,
       covered
         [sampleAnnotation 1 2;
          mkAnnotation 5 5 "2024-01-01T08:00:00.000Z" ai_generated;
          mkAnnotation 7 9 "2024-01-01T08:00:00.000Z" ai_generated] m
       <-> covered [sampleAnnotation 1 2; sampleAnnotation 5 9] m
           /\ ~ (6 <= m <= 6).
Proof.
  apply (removePartialAnnotation_within
           (sampleSnapshot [sampleAnnotation 1 2; sampleAnnotation 5 9])
           (sampleSnapshot
              [sampleAnnotation 1 2;
               mkAnnotation 5 5 "2024-01-01T08:00:00.000Z" ai_generated;
               mkAnnotation 7 9 "2024-01-01T08:00:00.000Z" ai_generated])
           5 9 6 6 sampleTimestamp morningClock).
  - apply snapshotInvariant_pairs. split.
    + repeat constructor; unfold validRange; cbn; lia.
    + repeat constructor; unfold overlap, adjacent; cbn; lia.
  - lia.
  - lia.
  - lia.
  - reflexivity.
Defined.

(** X19.  [removePartialAnnotation] does not check that the lines to remove
    lie within the annotation. When they start behind its end, the remaining
    part in front reaches up to [removeStartLine - 1]: the lines between the
    end of the annotation and the lines to remove are highlighted afterwards. *)
Theorem removePartialAnnotation_grows (snapshot snapshot' : Snapshot)
  (s e rs re : Z) (t : string) (clock : Clock) (m : Z) :
  fst (removePartialAnnotation snapshot s e rs re t clock) = Returns snapshot' ->
  s <= e -> e < m -> m < rs ->
  covered (Snapshot.highlightedRanges snapshot') m.
Proof.
  intros H Hse Hm1 Hm2. apply removePartialAnnotation_Returns in H.
  destruct H as (l1 & a & l2 & Hl & <- & <- & _ & ->).
  cbn [withRanges Snapshot.highlightedRanges].
  apply covered_app. right. unfold remainingParts.
  destruct (Z.ltb_spec (startLine a) rs); [|lia].
  apply covered_app. left. apply covered_single.
  unfold covers, partInFront; cbn. lia.
Qed.

Lemma removePartialAnnotation_grows_witness :
  covered
    [mkAnnotation 5 19 "2024-01-01T08:00:00.000Z" ai_generated] 15.
Proof.
  apply (removePartialAnnotation_grows
           (sampleSnapshot [sampleAnnotation 5 10])
           (sampleSnapshot
              [mkAnnotation 5 19 "2024-01-01T08:00:00.000Z" ai_generated])
           5 10 20 25 sampleTimestamp morningClock 15).
  - reflexivity.
  - lia.
  - lia.
  - lia.
Defined.

(** ** heuristicsSystem.ts *)

Lemma trimStart_count (s : string) :
  countNonWhiteSpace (String_trimStart s) = countNonWhiteSpace s.
Proof.
  induction s as [|c s IH]; [reflexivity|]. cbn.
  destruct (isWhiteSpace c) eqn:E; [exact IH|]. cbn. now rewrite E.
Qed.

Lemma trimEnd_count (s : string) :
  countNonWhiteSpace (String_trimEnd s) = countNonWhiteSpace s.
Proof.
  induction s as [|c s IH]; [reflexivity|]. cbn.
  destruct (String_trimEnd s) as [|d r] eqn:E.
  - cbn in IH. destruct (isWhiteSpace c) eqn:W; cbn; rewrite ?W; lia.
  - cbn [countNonWhiteSpace] in *. lia.
Qed.

Lemma trim_count (s : string) :
  countNonWhiteSpace (String_trim s) = countNonWhiteSpace s.
Proof. unfold String_trim. now rewrite trimEnd_count, trimStart_count. Qed.

Lemma count_le_length (s : string) :
  (countNonWhiteSpace s <= String.length s)%nat.
Proof.
  induction s as [|c s IH]; cbn; [lia|]. destruct (isWhiteSpace c); lia.
Qed.

(** A string that [trimEnd] returns holds a code unit that is not white
    space, unless it is empty. *)
Lemma trimEnd_nonempty_count (s : string) :
  String_trimEnd s <> EmptyString ->
  (1 <= countNonWhiteSpace (String_trimEnd s))%nat.
Proof.
  induction s as [|c s IH]; cbn; [congruence|].
  destruct (String_trimEnd s) as [|d r] eqn:E.
  - destruct (isWhiteSpace c) eqn:W; [congruence|]. intros _. cbn.
    rewrite W. lia.
  - intros _. cbn [countNonWhiteSpace] in *.
    assert (String d r <> EmptyString) by congruence.
    specialize (IH H). lia.
Qed.

Lemma trimEnd_keeps_head (c : ascii) (s : string) :
  isWhiteSpace c = false ->
  String_trimEnd (String c s) = String c (String_trimEnd s).
Proof.
  intros W. cbn. destruct (String_trimEnd s); [now rewrite W|reflexivity].
Qed.

Lemma trimStart_head (s : string) :
  String_trimStart s = EmptyString
  \/ exists c r, String_trimStart s = String c r /\ isWhiteSpace c = false.
Proof.
  induction s as [|c s IH]; [now left|]. cbn.
  destruct (isWhiteSpace c) eqn:W; [exact IH|]. right. now exists c, s.
Qed.

(** The trimmed text has two code units or more exactly when the text holds
    two code units or more that are not white space. *)
Lemma trim_length_two (s : string) :
  (2 <= String.length (String_trim s))%nat
  <-> (2 <= countNonWhiteSpace s)%nat.
Proof.
  rewrite <- (trim_count s). split.
  - unfold String_trim.
    destruct (trimStart_head s) as [->|(c & r & -> & W)]; [cbn; lia|].
    rewrite (trimEnd_keeps_head c r W). cbn [String.length countNonWhiteSpace].
    rewrite W. intros L.
    destruct (String_trimEnd r) as [|d r'] eqn:E; [cbn in L; lia|].
    rewrite <- E.
    assert (N : String_trimEnd r <> EmptyString) by (rewrite E; congruence).
    pose proof (trimEnd_nonempty_count r N). lia.
  - pose proof (count_le_length (String_trim s)). lia.
Qed.

Lemma passesBasicSignificanceCheck_iff (text' : string) (addedLines : Z) :
  passesBasicSignificanceCheck text' addedLines = true
  <-> (2 <= countNonWhiteSpace text')%nat.
Proof.
  rewrite <- trim_length_two. unfold passesBasicSignificanceCheck.
  destruct text' as [|c r]; [cbn; split; [discriminate|lia]|].
  destruct (Nat.eqb_spec (String.length (String_trim (String c r))) 0);
    [split; [discriminate|lia]|].
  destruct (Nat.eqb_spec (String.length (String_trim (String c r))) 1);
    [split; [discriminate|lia]|].
  split; [lia|reflexivity].
Qed.

Lemma shouldFilterChange_false (this : HeuristicsSystem) (t : string)
  (n : Z) :
  shouldFilterChange this t n = false
  <-> gitOperationSuspended this = false /\ recentActions this = [].
Proof.
  unfold shouldFilterChange.
  destruct (gitOperationSuspended this); [split; [discriminate|intros []; discriminate]|].
  destruct (recentActions this); cbn; split; auto; try discriminate.
  intros [_ H]. discriminate H.
Qed.

Lemma isIndividualChangeSignificant_iff (this : HeuristicsSystem)
  (change : ContentChange) :
  isIndividualChangeSignificant this change = true
  <-> gitOperationSuspended this = false /\ recentActions this = []
      /\ (2 <= countNonWhiteSpace (ContentChange.text change))%nat.
Proof.
  unfold isIndividualChangeSignificant.
  destruct (shouldFilterChange this _ _) eqn:F.
  - split; [discriminate|]. intros (H1 & H2 & _).
    pose proof (proj2 (shouldFilterChange_false this
                         (ContentChange.text change)
                         (ContentChange.addedLines change)) (conj H1 H2)).
    congruence.
  - apply shouldFilterChange_false in F. destruct F as [F1 F2].
    destruct (passesBasicSignificanceCheck _ _) eqn:P; cbn.
    + apply passesBasicSignificanceCheck_iff in P. tauto.
    + split; [discriminate|]. intros (_ & _ & H).
      apply (passesBasicSignificanceCheck_iff _
               (ContentChange.addedLines change)) in H. congruence.
Qed.

Lemma isChangeSignificant_iff (this : HeuristicsSystem)
  (contentChanges : list ContentChange) :
  isChangeSignificant this contentChanges = true
  <-> gitOperationSuspended this = false /\ recentActions this = []
      /\ exists change,
           In change contentChanges
           /\ (2 <= countNonWhiteSpace (ContentChange.text change))%nat.
Proof.
  unfold isChangeSignificant.
  assert (L : isChangeSignificantLoop this contentChanges = true
              <-> gitOperationSuspended this = false /\ recentActions this = []
                  /\ exists change,
                       In change contentChanges
                       /\ (2 <= countNonWhiteSpace
                                  (ContentChange.text change))%nat).
  { induction contentChanges as [|c l IH]; cbn.
    - split; [discriminate|]. now intros (_ & _ & x & [] & _).
    - destruct (isIndividualChangeSignificant this c) eqn:E.
      + apply isIndividualChangeSignificant_iff in E.
        destruct E as (E1 & E2 & E3). split; [intros _|reflexivity].
        repeat split; auto. exists c. split; [now left|exact E3].
      + rewrite IH. split.
        * intros (H1 & H2 & x & Hx & H3). repeat split; auto.
          exists x. split; [now right|exact H3].
        * intros (H1 & H2 & x & [<-|Hx] & H3).
          -- pose proof (proj2 (isIndividualChangeSignificant_iff this c)
                           (conj H1 (conj H2 H3))). congruence.
          -- repeat split; auto. now exists x. }
  destruct contentChanges as [|c l]; [|exact L].
  cbn. split; [discriminate|]. now intros (_ & _ & x & [] & _).
Qed.

(** X20.  A commit is significant exactly when detection is not suspended by a
    git operation, no user action is marked as recent, and the text of one of
    its changes holds two or more code units that are not white space; the
    number of added lines plays no part. In particular deletions, white space
    and single characters are never significant. *)
Theorem isChangeSignificant_characterized (this : HeuristicsSystem)
  (contentChanges : list ContentChange) :
  isChangeSignificant this contentChanges = true
  <-> gitOperationSuspended this = false /\ recentActions this = []
      /\ exists change,
           In change contentChanges
           /\ (2 <= countNonWhiteSpace (ContentChange.text change))%nat.
Proof. apply isChangeSignificant_iff. Qed.

Lemma isChangeSignificant_characterized_witness :
  isChangeSignificant (mkHeuristicsSystem [] false)
    [ContentChange.mk 3 3 0 0 "  " 0 0 0;
     ContentChange.mk 7 7 0 0 "if (x) { y }" 0 0 0]
  = true.
Proof.
  apply (isChangeSignificant_characterized (mkHeuristicsSystem [] false)).
  split; [reflexivity|]. split; [reflexivity|].
  exists (ContentChange.mk 7 7 0 0 "if (x) { y }" 0 0 0).
  split; [right; now left|].
  change (2 <= 8)%nat. lia.
Defined.

(** ** documentChangeHandler.ts *)

Lemma squash_stamp_from (annotations : list Annotation) (r : Annotation) :
  In r (squashOverlappingAnnotations annotations) ->
  exists a, In a annotations /\ timestamp r = timestamp a.
Proof.
  rewrite squashOverlappingAnnotations_mergeSorted.
  pose proof (Array_sort_perm byStartLineAscending annotations) as P.
  unfold mergeSorted.
  destruct (Array_sort byStartLineAscending annotations) as [|first rest];
    [intros []|].
  intros Hr. apply mergeScan_stamp_from in Hr.
  destruct Hr as (a & Ha & Ht). exists a. split; [|exact Ht].
  eapply Permutation_in; [symmetry; exact P|exact Ha].
Qed.

Lemma applyChange_invariant (clock : Clock) (snapshot : Snapshot)
  (commit : Commit) :
  Forall validRange (Snapshot.highlightedRanges snapshot) ->
  Forall wellFormedEdit (Commit.contentChanges commit) ->
  snapshotInvariant
    (Snapshot.highlightedRanges (applyChangeResult clock snapshot commit)).
Proof.
  intros V W. rewrite applyChangeResult_eq. cbn [Snapshot.highlightedRanges].
  apply mergedForm_snapshotInvariant, squashOverlappingAnnotations_mergedForm.
  apply Forall_app. split.
  - now apply updateAndCleanAnnotationsForCommit_valid.
  - destruct (Commit.isSignificant commit); [|constructor].
    now apply synthesized_valid.
Qed.

Lemma orderedRange_wellFormed (evs : list TextDocumentContentChangeEvent) :
  Forall orderedRange evs -> Forall wellFormedEdit (extractContentChanges evs).
Proof. apply extractContentChanges_wellFormed. Qed.

(** The commit [handleDocumentChange] builds for a monitored document. *)
Lemma handleDocumentChange_eq (h : HeuristicsSystem) (current : Snapshot)
  (event : ChangeEvent.t) (clock : Clock) :
  fst (handleDocumentChange h true current event clock)
  = Some (applyChangeResult clock current
            {| Commit.documentVersion := ChangeEvent.documentVersion event;
               Commit.isSignificant :=
                 match ChangeEvent.reason event with
                 | Some _ => false
                 | None =>
                     isChangeSignificant h
                       (extractContentChanges (ChangeEvent.contentChanges event))
                 end;
               Commit.contentChanges :=
                 extractContentChanges (ChangeEvent.contentChanges event) |}).
Proof.
  unfold handleDocumentChange, applyChangeResult, bind, ret. cbn [negb].
  now destruct (applyChange current _ clock).
Qed.

(** X21.  From change events of the editor, whose ranges are ordered, and a
    loaded snapshot without inverted range, [handleDocumentChange] saves a
    snapshot that satisfies the snapshot invariant and carries the version of
    the document; for a document that is not monitored it saves nothing. *)
Theorem handleDocumentChange_saves_invariant (h : HeuristicsSystem)
  (current : Snapshot) (event : ChangeEvent.t) (clock : Clock) :
  fst (handleDocumentChange h false current event clock) = None
  /\ (Forall validRange (Snapshot.highlightedRanges current) ->
      Forall orderedRange (ChangeEvent.contentChanges event) ->
      exists newSnapshot,
        fst (handleDocumentChange h true current event clock)
        = Some newSnapshot
        /\ snapshotInvariant (Snapshot.highlightedRanges newSnapshot)
        /\ Snapshot.documentVersion newSnapshot
           = ChangeEvent.documentVersion event).
Proof.
  split; [reflexivity|]. intros V O. rewrite handleDocumentChange_eq.
  eexists. split; [reflexivity|]. split.
  - apply applyChange_invariant; [exact V|].
    cbn [Commit.contentChanges]. now apply orderedRange_wellFormed.
  - now rewrite applyChangeResult_eq.
Qed.

Lemma handleDocumentChange_saves_invariant_witness :
  exists newSnapshot,
    fst (handleDocumentChange (mkHeuristicsSystem [] false) true
           (sampleSnapshot [sampleAnnotation 2 4])
           (ChangeEvent.mk 2
              [mkEvent (mkRange (mkPosition 2 0) (mkPosition 2 4)) 4 "ab"]
              None)
           morningClock)
    = Some newSnapshot
    /\ snapshotInvariant (Snapshot.highlightedRanges newSnapshot)
    /\ Snapshot.documentVersion newSnapshot = 2.
Proof.
  apply (handleDocumentChange_saves_invariant (mkHeuristicsSystem [] false)
           (sampleSnapshot [sampleAnnotation 2 4])
           (ChangeEvent.mk 2
              [mkEvent (mkRange (mkPosition 2 0) (mkPosition 2 4)) 4 "ab"]
              None)
           morningClock).
  - repeat constructor. unfold validRange; cbn. lia.
  - repeat constructor; cbn; lia.
Defined.

(** X22.  Undo and redo, a git operation under way, a recent user action, and
    changes whose texts hold fewer than two code units that are not white
    space create no annotation: every annotation of the saved snapshot carries
    the time stamp of an annotation of the loaded one. *)
Theorem handleDocumentChange_creates_nothing (h : HeuristicsSystem)
  (current newSnapshot : Snapshot) (event : ChangeEvent.t) (clock : Clock)
  (r : Annotation) :
  ChangeEvent.reason event <> None
  \/ gitOperationSuspended h = true
  \/ recentActions h <> []
  \/ (forall ev, In ev (ChangeEvent.contentChanges event) ->
        (countNonWhiteSpace (text ev) < 2)%nat) ->
  fst (handleDocumentChange h true current event clock) = Some newSnapshot ->
  In r (Snapshot.highlightedRanges newSnapshot) ->
  exists a, In a (Snapshot.highlightedRanges current)
            /\ timestamp r = timestamp a.
Proof.
  intros H E Hr. rewrite handleDocumentChange_eq in E. injection E as <-.
  rewrite applyChangeResult_eq in Hr.
  cbn [Snapshot.highlightedRanges Commit.isSignificant Commit.contentChanges]
    in Hr.
  assert (S : match ChangeEvent.reason event with
              | Some _ => false
              | None =>
                  isChangeSignificant h
                    (extractContentChanges (ChangeEvent.contentChanges event))
              end = false).
  { destruct (ChangeEvent.reason event) as [x|]; [reflexivity|].
    destruct (isChangeSignificant h _) eqn:Sg; [|reflexivity].
    apply isChangeSignificant_iff in Sg.
    destruct Sg as (S1 & S2 & c & Hc & Hn).
    destruct H as [H|[H|[H|H]]]; [congruence|congruence|congruence|].
    unfold extractContentChanges in Hc. apply in_map_iff in Hc.
    destruct Hc as (ev & <- & Hev). specialize (H ev Hev).
    cbn in Hn. lia. }
  rewrite S, app_nil_r in Hr. apply squash_stamp_from in Hr.
  destruct Hr as (b & Hb & Ht).
  rewrite updateAndCleanAnnotationsForCommit_fold in Hb.
  apply foldRangeTransform_keeps_stamp in Hb.
  destruct Hb as (a & Ha & Hta & _). exists a. split; [exact Ha|congruence].
Qed.

Lemma handleDocumentChange_creates_nothing_witness :
  exists a, In a [sampleAnnotation 2 4]
            /\ timestamp (sampleAnnotation 2 2) = timestamp a.
Proof.
  apply (handleDocumentChange_creates_nothing (mkHeuristicsSystem [] false)
           (sampleSnapshot [sampleAnnotation 2 4])
           {| Snapshot.highlightedRanges :=
                [sampleAnnotation 2 2; sampleAnnotation 4 4];
              Snapshot.lastUpdated := "2024-01-01T08:00:00.000Z";
              Snapshot.documentVersion := 2 |}
           (ChangeEvent.mk 2
              [mkEvent (mkRange (mkPosition 2 0) (mkPosition 2 4)) 4
                 "function f() {}"]
              (Some Undo))
           morningClock (sampleAnnotation 2 2)).
  - left. discriminate.
  - reflexivity.
  - now left.
Defined.

(** X23.  When a change event without reason is judged significant, every one
    of its changes is highlighted in the saved snapshot, from the line it
    starts on (1-based) over as many lines as its text has line feeds, the
    changes of little text included. *)
Theorem handleDocumentChange_highlights (h : HeuristicsSystem)
  (current newSnapshot : Snapshot) (event : ChangeEvent.t) (clock : Clock)
  (ev : TextDocumentContentChangeEvent) (m : Z) :
  ChangeEvent.reason event = None ->
  isChangeSignificant h
    (extractContentChanges (ChangeEvent.contentChanges event)) = true ->
  fst (handleDocumentChange h true current event clock) = Some newSnapshot ->
  In ev (ChangeEvent.contentChanges event) ->
  line (start (range ev)) + 1 <= m ->
  m <= line (start (range ev)) + 1 + countNewlines (text ev) ->
  covered (Snapshot.highlightedRanges newSnapshot) m.
Proof.
  intros R S E Hev M1 M2. rewrite handleDocumentChange_eq in E.
  injection E as <-. rewrite R, S.
  apply applyChange_covered_general. right.
  split; [reflexivity|]. exists (extractContentChange ev). split.
  - cbn [Commit.contentChanges]. unfold extractContentChanges.
    now apply in_map.
  - unfold marks, extractContentChange; cbn.
    destruct (text ev) eqn:T; cbn [countNewlines] in *; lia.
Qed.

Lemma handleDocumentChange_highlights_witness :
  covered
    [mkAnnotation 2 4 "2024-01-01T00:00:00.000Z" ai_generated;
     mkAnnotation 7 9 "2024-01-01T08:00:00.000Z" ai_generated] 9.
Proof.
  apply (handleDocumentChange_highlights (mkHeuristicsSystem [] false)
           (sampleSnapshot [sampleAnnotation 2 4])
           {| Snapshot.highlightedRanges :=
                [mkAnnotation 2 4 "2024-01-01T00:00:00.000Z" ai_generated;
                 mkAnnotation 7 9 "2024-01-01T08:00:00.000Z" ai_generated];
              Snapshot.lastUpdated := "2024-01-01T08:00:00.000Z";
              Snapshot.documentVersion := 2 |}
           (ChangeEvent.mk 2
              [mkEvent (mkRange (mkPosition 6 0) (mkPosition 6 0)) 0
                 "a = 1;
b = 2;
c = 3;"]
              None)
           morningClock
           (mkEvent (mkRange (mkPosition 6 0) (mkPosition 6 0)) 0
              "a = 1;
b = 2;
c = 3;") 9).
  - reflexivity.
  - reflexivity.
  - reflexivity.
  - now left.
  - cbn. lia.
  - cbn. lia.
Defined.

(** ** The adapter *)

Lemma extractContentChange_extractedFrom (ev : TextDocumentContentChangeEvent) :
  orderedRange ev -> extractedFrom ev (extractContentChange ev).
Proof.
  intros [H0 H1]. unfold extractedFrom, extractContentChange; cbn.
  repeat split.
  - now destruct (text ev).
  - destruct (0 <? rangeLength ev); lia.
  - destruct (0 <? rangeLength ev); lia.
Qed.

(** X24.  From events with ordered ranges the adapter makes one well-formed
    edit per event, in order: the lines are 1-based, [addedLines] is the
    number of line feeds of the text, and [deletedLines] lies between [0] and
    the number of lines the range spans beyond its first. *)
Theorem extractContentChanges_edits
  (vsCodeChanges : list TextDocumentContentChangeEvent) :
  Forall orderedRange vsCodeChanges ->
  Forall2 (fun ev e => extractedFrom ev e /\ wellFormedEdit e)
    vsCodeChanges (extractContentChanges vsCodeChanges).
Proof.
  unfold extractContentChanges.
  induction 1 as [|ev l Hev H IH]; cbn; constructor; [|exact IH].
  split; [now apply extractContentChange_extractedFrom|].
  destruct Hev. now apply extractContentChange_wellFormed.
Qed.

Lemma extractContentChanges_edits_witness :
  Forall2 (fun ev e => extractedFrom ev e /\ wellFormedEdit e)
    [mkEvent (mkRange (mkPosition 2 0) (mkPosition 4 1)) 9 "x"]
    (extractContentChanges
       [mkEvent (mkRange (mkPosition 2 0) (mkPosition 4 1)) 9 "x"]).
Proof.
  apply (extractContentChanges_edits
           [mkEvent (mkRange (mkPosition 2 0) (mkPosition 4 1)) 9 "x"]).
  repeat constructor; cbn; lia.
Defined.

Lemma extracted_replacement (ev : TextDocumentContentChangeEvent) :
  emptyRangeWhenNothingReplaced ev ->
  ContentChange.endLine (extractContentChange ev)
  + delta (extractContentChange ev)
  = ContentChange.startLine (extractContentChange ev)
    + ContentChange.addedLines (extractContentChange ev).
Proof.
  unfold emptyRangeWhenNothingReplaced, delta, extractContentChange; cbn.
  intros [H|H].
  - destruct (Z.ltb_spec 0 (rangeLength ev)); lia.
  - destruct (0 <? rangeLength ev); lia.
Qed.

(** X25.  For an edit the adapter made, the lines the synthesizer marks are
    the lines of the replacement in the new document, which the range
    transform clears: nothing the transform returns covers a line that the
    synthesizer marks for the same edit. *)
Theorem synthesized_range_is_cleared (ev : TextDocumentContentChangeEvent)
  (annotations : list Annotation) (r : Annotation) (m : Z) :
  emptyRangeWhenNothingReplaced ev ->
  In r (updateAndCleanAnnotationsForContentChange annotations
          (extractContentChange ev)) ->
  marks (extractContentChange ev) m ->
  ~ covers r m.
Proof.
  intros E Hr [M1 M2] [C1 C2].
  pose proof (extracted_replacement ev E) as R.
  rewrite updateAndCleanAnnotationsForContentChange_transformAll in Hr.
  unfold transformAll in Hr. apply in_flat_map in Hr.
  destruct Hr as (a & _ & Hr). apply transform_in in Hr.
  unfold shifted, beforeFragment, afterFragment in Hr.
  destruct Hr as [[-> ?]|[(-> & ? & ?)|[(-> & ? & ?)|(-> & ? & ?)]]];
    cbn [startLine endLine withLines] in C1, C2; lia.
Qed.

Lemma synthesized_range_is_cleared_witness :
  ~ covers (sampleAnnotation 2 2) 3.
Proof.
  apply (synthesized_range_is_cleared
           (mkEvent (mkRange (mkPosition 2 0) (mkPosition 2 4)) 4 "ab")
           [sampleAnnotation 2 4] (sampleAnnotation 2 2) 3).
  - left. cbn. lia.
  - cbn. now left.
  - unfold marks; cbn. lia.
Defined.

(** ** The file name of a snapshot *)

Lemma safeFilename_char_safe (c : ascii) :
  isSafeFilenameChar (if isSafeFilenameChar c then c else "_"%char) = true
  \/ (if isSafeFilenameChar c then c else "_"%char) = "_"%char.
Proof. destruct (isSafeFilenameChar c) eqn:E; [now left|now right]. Qed.

Lemma safeFilename_same (p q : string) :
  sameSafeChars p q -> safeFilename p = safeFilename q.
Proof.
  revert q. induction p as [|c p IH]; intros [|d q]; cbn; try tauto.
  intros [[->|[Hc Hd]] H]; rewrite (IH q H); [reflexivity|].
  now rewrite Hc, Hd.
Qed.

Lemma sameSafeChars_safeFilename (p : string) :
  sameSafeChars p (safeFilename p).
Proof.
  induction p as [|c p IH]; cbn; [exact I|]. split; [|exact IH].
  destruct (isSafeFilenameChar c) eqn:E; [now left|right].
  split; reflexivity.
Qed.

(** X26.  The file name of a snapshot has the length of the relative path and
    keeps the letters, digits, dots and hyphens; two relative paths that
    differ only in other characters (a path separator against an underscore,
    say) get the same file name, and so share one snapshot. *)
Theorem safeFilename_collisions (p q : string) :
  sameSafeChars p q ->
  safeFilename p = safeFilename q
  /\ String.length (safeFilename p) = String.length p
  /\ safeFilename (safeFilename p) = safeFilename p.
Proof.
  intros H. split; [now apply safeFilename_same|]. split.
  - clear. induction p as [|c p IH]; cbn; [reflexivity|now rewrite IH].
  - symmetry. apply safeFilename_same, sameSafeChars_safeFilename.
Qed.

Lemma safeFilename_collisions_witness :
  safeFilename "src/a.ts" = safeFilename "src_a.ts".
Proof.
  apply (safeFilename_collisions "src/a.ts" "src_a.ts").
  cbn. repeat split; auto.
Defined.

(** ** Suspension by git operations *)

Lemma prefix_append (s1 s2 : string) :
  String.prefix s1 s2 = true <-> exists post, s2 = (s1 ++ post)%string.
Proof.
  revert s2. induction s1 as [|a s1 IH]; intros s2.
  - destruct s2; cbn; split; eauto.
  - destruct s2 as [|b s2]; cbn;
      [split; [discriminate|intros [? [=]]]|].
    destruct (ascii_dec a b) as [->|N].
    + rewrite IH. split; intros [post H]; exists post; congruence.
    + split; [discriminate|]. intros [post H]. injection H as H _.
      symmetry in H. contradiction.
Qed.

Lemma String_includes_append (needle haystack : string) :
  String_includes needle haystack = true
  <-> exists pre post, haystack = (pre ++ needle ++ post)%string.
Proof.
  induction haystack as [|c h IH]; cbn [String_includes].
  - destruct (String.prefix needle EmptyString) eqn:P.
    + apply prefix_append in P. destruct P as [post P].
      split; [intros _; now exists EmptyString, post|reflexivity].
    + split; [discriminate|]. intros (pre & post & H).
      destruct pre; [|discriminate].
      assert (String.prefix needle EmptyString = true)
        by (apply prefix_append; now exists post).
      congruence.
  - destruct (String.prefix needle (String c h)) eqn:P.
    + apply prefix_append in P. destruct P as [post P].
      split; [intros _; now exists EmptyString, post|reflexivity].
    + rewrite IH. split.
      * intros (pre & post & ->). now exists (String c pre), post.
      * intros (pre & post & H). destruct pre as [|d pre].
        -- assert (String.prefix needle (String c h) = true)
             by (apply prefix_append; now exists post).
           congruence.
        -- injection H as _ H. now exists pre, post.
Qed.

Lemma shellExecutionListener_keeps_suspended (this : HeuristicsSystem)
  (commandLine : string) :
  gitOperationSuspended this = true ->
  shellExecutionListener this commandLine = (this, None).
Proof.
  intros H. unfold shellExecutionListener, suspendAIDetection.
  destruct (existsb _ gitCommands); [|reflexivity]. now rewrite H.
Qed.

Lemma shellExecutionListener_suspends (this : HeuristicsSystem)
  (commandLine cmd : string) :
  In cmd gitCommands -> String_includes cmd commandLine = true ->
  gitOperationSuspended (fst (shellExecutionListener this commandLine)) = true
  /\ (gitOperationSuspended this = false ->
      snd (shellExecutionListener this commandLine)
      = Some (mkNotification
                "Git operation detected, suspending AI code highlighting"
                ["Resume Highlighting"%string])).
Proof.
  intros Hc Hi. unfold shellExecutionListener.
  assert (E : existsb (fun c => String_includes c commandLine) gitCommands
              = true) by (apply existsb_exists; now exists cmd).
  rewrite E. unfold suspendAIDetection.
  destruct (gitOperationSuspended this) eqn:S; cbn; [|now split].
  split; [exact S|discriminate].
Qed.

Lemma sessionStep_keeps_suspended (session : Session) (event : SessionEvent) :
  keepsSuspension event = true ->
  gitOperationSuspended (system session) = true ->
  gitOperationSuspended (system (sessionStep session event)) = true.
Proof.
  intros K H. destruct event as [commandLine|[item|]|]; cbn in K |- *.
  - now rewrite (shellExecutionListener_keeps_suspended _ commandLine H).
  - destruct (awaited session); [exact H|]. cbn.
    destruct (String.eqb item "Resume Highlighting"); [discriminate|exact H].
  - destruct (awaited session); exact H.
  - discriminate.
Qed.

Lemma sessionRun_keeps_suspended (events : list SessionEvent)
  (session : Session) :
  forallb keepsSuspension events = true ->
  gitOperationSuspended (system session) = true ->
  gitOperationSuspended (system (sessionRun session events)) = true.
Proof.
  revert session. induction events as [|event events IH]; intros session K H;
    [exact H|].
  cbn in K. apply andb_prop in K. destruct K as [K1 K2].
  apply (IH (sessionStep session event) K2).
  now apply sessionStep_keeps_suspended.
Qed.

Lemma suspended_not_significant (this : HeuristicsSystem)
  (contentChanges : list ContentChange) :
  gitOperationSuspended this = true ->
  isChangeSignificant this contentChanges = false.
Proof.
  intros S. destruct (isChangeSignificant this contentChanges) eqn:E;
    [|reflexivity].
  apply isChangeSignificant_iff in E. destruct E as [E _]. congruence.
Qed.

(** X27.  When a shell execution starts whose command line contains one of
    the git commands of the list, the flag is set; if it was not set before,
    one more call of [suspendAIDetection] then waits for the answer to its
    notification.  From then on no commit is judged significant, whatever is
    run in the terminal and whichever notifications are dismissed, as long as
    none is answered 'Resume Highlighting' and [resumeAIDetection] is not
    called.  After such events, the answer 'Resume Highlighting' to a
    notification still awaited clears the flag, and so does a call of
    [resumeAIDetection]; a later git command sets it again. *)
Theorem git_command_suspends_detection (session : Session)
  (commandLine cmd : string) (later : list SessionEvent)
  (contentChanges : list ContentChange) :
  In cmd gitCommands ->
  (exists pre post, commandLine = (pre ++ cmd ++ post)%string) ->
  forallb keepsSuspension later = true ->
  let suspended := sessionStep session (TerminalShellExecution commandLine) in
  let afterwards := sessionRun suspended later in
  isAIDetectionSuspended (system suspended) = true
  /\ (isAIDetectionSuspended (system session) = false ->
      awaited suspended = S (awaited session))
  /\ isAIDetectionSuspended (system afterwards) = true
  /\ isChangeSignificant (system afterwards) contentChanges = false
  /\ ((0 < awaited afterwards)%nat ->
      isAIDetectionSuspended
        (system (sessionStep afterwards
                   (NotificationAnswered (Some "Resume Highlighting"%string))))
      = false)
  /\ isAIDetectionSuspended
       (system (sessionStep afterwards ResumeAIDetectionCalled)) = false
  /\ isAIDetectionSuspended
       (system (sessionStep
                  (sessionStep afterwards ResumeAIDetectionCalled)
                  (TerminalShellExecution commandLine))) = true.
Proof.
  intros Hc Hi K. apply String_includes_append in Hi.
  cbv zeta. unfold isAIDetectionSuspended.
  assert (S0 : gitOperationSuspended
                 (system (sessionStep session
                            (TerminalShellExecution commandLine))) = true).
  { destruct (shellExecutionListener_suspends (system session) commandLine cmd
                Hc Hi) as [H _].
    cbn. now destruct (shellExecutionListener (system session) commandLine). }
  pose proof (sessionRun_keeps_suspended later _ K S0) as S1.
  split; [exact S0|]. split.
  { intros N.
    destruct (shellExecutionListener_suspends (system session) commandLine cmd
                Hc Hi) as [_ H].
    specialize (H N). cbn.
    destruct (shellExecutionListener (system session) commandLine) as [t o].
    cbn in H. now rewrite H. }
  split; [exact S1|]. split; [now apply suspended_not_significant|].
  split; [|split].
  - intros A. cbn.
    destruct (awaited (sessionRun _ later)); [inversion A|reflexivity].
  - reflexivity.
  - destruct (shellExecutionListener_suspends
                (resumeAIDetection
                   (system (sessionRun
                              (sessionStep session
                                 (TerminalShellExecution commandLine)) later)))
                commandLine cmd Hc Hi) as [H _].
    cbn. cbn in H.
    now destruct (shellExecutionListener _ commandLine).
Qed.

Lemma git_command_suspends_detection_witness :
  isChangeSignificant
    (system
       (sessionRun
          (sessionStep (mkSession (mkHeuristicsSystem [] false) 0)
             (TerminalShellExecution "cd repo && git pull --rebase"))
          [TerminalShellExecution "npm test";
           NotificationAnswered None;
           TerminalShellExecution "git merge main"]))
    [ContentChange.mk 7 7 0 0 "if (x) { y }" 0 0 0]
  = false.
Proof.
  assert (Hc : In "git pull"%string gitCommands) by (cbn; tauto).
  assert (Hi : exists pre post,
             "cd repo && git pull --rebase"%string
             = (pre ++ "git pull" ++ post)%string)
    by (now exists "cd repo && "%string, " --rebase"%string).
  destruct (git_command_suspends_detection
              (mkSession (mkHeuristicsSystem [] false) 0)
              "cd repo && git pull --rebase" "git pull"
              [TerminalShellExecution "npm test";
               NotificationAnswered None;
               TerminalShellExecution "git merge main"]
              [ContentChange.mk 7 7 0 0 "if (x) { y }" 0 0 0]
              Hc Hi eq_refl) as (_ & _ & _ & H & _).
  exact H.
Defined.
